(** * The Polarion node: request routing and the authenticated request helper

    A shallow embedding of [nodes/Polarion/Polarion.node.ts]: the helper
    [polarionApiRequest] and the method [Polarion.execute], together with the
    parts of JavaScript they rely on (values and truthiness, [||],
    [Object.assign], [Array.isArray], [encodeURIComponent] and
    [Buffer.from(..).toString('base64')]).

    Conventions.
    - A JavaScript string is held as a [string] whose characters are the
      bytes of its UTF-8 form.  Equality, concatenation, emptiness,
      [encodeURIComponent] and base64 all act on that form.  A string with an
      unpaired surrogate has no such form; the parameters, the credential
      and the payload text are taken to have one.  The two places where the
      code meets a string without it are modelled apart: a document
      identifier by its code units, on which [encodeURIComponent] throws
      (see [encodeURIComponent_units]), and the halves of a surrogate pair
      that [Object.assign] copies out of a string (see [code_units]).
    - A JavaScript number is a binary64 [float].
    - A JavaScript object used as a record or dictionary is a [gmap] from
      property names to values; the order of the properties is not kept.
    - A thrown exception is the left summand of a result.  The constructor
      of [NodeOperationError] is code of the host library: the message that
      it gives to an error is read from the context.
    - The requests handed to the host transport are logged in the state that
      every effectful function threads. *)

From Stdlib Require Import PrimFloat Uint63 ZArith NArith Ascii String.
From stdpp Require Import base strings gmap list pretty.

Set Warnings "-register-all".

(** ** JavaScript values *)

Inductive JsValue : Type :=
| JUndefined
| JNull
| JBool (b : bool)
| JNum (x : float)
| JStr (s : string)
| JArr (xs : list JsValue)
| JObj (props : gmap string JsValue).

(** [IDataObject] of n8n-workflow: a dictionary of values. *)
Abbreviation IDataObject := (gmap string JsValue).

(** ToBoolean. *)
Definition truthy (v : JsValue) : bool :=
  match v with
  | JUndefined | JNull => false
  | JBool b => b
  | JNum x => negb (PrimFloat.is_zero x || PrimFloat.is_nan x)
  | JStr s => negb (bool_decide (s = EmptyString))
  | JArr _ | JObj _ => true
  end.

(** [a || b]. *)
Definition js_or (a b : JsValue) : JsValue := if truthy a then a else b.

(** [o.k] on a dictionary: the value stored under [k], [undefined] when the
    property is absent. *)
Definition prop (o : IDataObject) (k : string) : JsValue :=
  default JUndefined (o !! k).

(** [Array.isArray]. *)
Definition isArray (v : JsValue) : bool :=
  match v with JArr _ => true | _ => false end.

(** The elements spread by [...v] when [v] is an array. *)
Definition spread (v : JsValue) : list JsValue :=
  match v with JArr xs => xs | _ => [] end.

(** The number that a loop index denotes. *)
Definition number_of_nat (n : nat) : float :=
  PrimFloat.of_uint63 (Uint63.of_Z (Z.of_nat n)).

(** The three bytes that the scheme of UTF-8 gives to a code unit from
    [0x800] on. *)
Definition three_bytes (u : N) : string :=
  String (ascii_of_N (224 + u / 4096))
    (String (ascii_of_N (128 + (u / 64) mod 64))
       (String (ascii_of_N (128 + u mod 64)) EmptyString)).

(** [s[0]], [s[1]], ...: the UTF-16 code units of a string, each as a string
    of its own.  A character of one, two or three bytes is one code unit.  A
    character of four bytes is a surrogate pair, and each of its halves is a
    string that has no UTF-8 form; it is held as the three bytes that the
    scheme gives to the surrogate.  A lead byte that the text cuts short is
    kept with what follows it. *)
Fixpoint code_units (s : string) : list string :=
  match s with
  | EmptyString => []
  | String a s1 =>
      let x := N_of_ascii a in
      if (x <? 192)%N then String a EmptyString :: code_units s1
      else
        match s1 with
        | EmptyString => [String a EmptyString]
        | String b s2 =>
            if (x <? 224)%N then String a (String b EmptyString) :: code_units s2
            else
              match s2 with
              | EmptyString => [String a (String b EmptyString)]
              | String c s3 =>
                  if (x <? 240)%N then
                    String a (String b (String c EmptyString)) :: code_units s3
                  else
                    match s3 with
                    | EmptyString => [String a (String b (String c EmptyString))]
                    | String d s4 =>
                        let code_point :=
                          ((x mod 8) * 262144 + (N_of_ascii b mod 64) * 4096
                           + (N_of_ascii c mod 64) * 64 + N_of_ascii d mod 64)%N in
                        let v := (code_point - 65536)%N in
                        three_bytes (55296 + v / 1024)
                        :: three_bytes (56320 + v mod 1024)
                        :: code_units s4
                    end
              end
        end
  end.

(** The properties [0], [1], ... of an array or of a string. *)
Definition indexed (xs : list JsValue) : IDataObject :=
  list_to_map (imap (fun i x => (pretty i, x)) xs).

(** The own enumerable properties that [Object.assign] copies from a source:
    those of an object, the elements of an array under their indices, the
    code units of a string under their indices, and nothing for the other
    primitives ([null] and [undefined] sources are skipped). *)
Definition own_enumerable (v : JsValue) : IDataObject :=
  match v with
  | JObj m => m
  | JArr xs => indexed xs
  | JStr s => indexed (JStr <$> code_units s)
  | JUndefined | JNull | JBool _ | JNum _ => ∅
  end.

(** [Object.assign(target, source)] on a plain object [target]: each own
    enumerable property of the source is written by [target[key] = value]
    and overwrites the property of that name.  The name [__proto__] is the
    exception: unless the target has an own property of that name, the
    assignment runs the setter that [Object.prototype] holds under it, which
    changes the prototype of the target or does nothing, and adds no
    property.  The prototype is not part of the model: the body is sent with
    its own properties only. *)
Definition Object_assign (target : IDataObject) (source : JsValue) : IDataObject :=
  let copied := own_enumerable source in
  (if decide (is_Some (target !! "__proto__")) then copied
   else delete "__proto__" copied) ∪ target.

(** ** Errors *)

Inductive ErrorClass : Type :=
| NodeOperationError   (* constructed by the node *)
| SyntaxError          (* thrown by JSON.parse *)
| TypeError            (* property access on null or undefined *)
| URIError             (* thrown by encodeURIComponent *)
| HostError.           (* thrown by the host transport *)

(** An exception: its class, its [message], and the upstream response body it
    carries ([error.response?.data] of a transport failure); [JUndefined]
    when there is none. *)
Record JsError : Type := mkError {
  error_class : ErrorClass;
  message : string;
  response_data : JsValue
}.

Definition Result (A : Type) : Type := JsError + A.

Definition result_bind {A B} (r : Result A) (k : A -> Result B) : Result B :=
  match r with
  | inl e => inl e
  | inr a => k a
  end.

(** The [TypeError] of reading [data] from [null] or [undefined]. *)
Definition cannot_read_data (base : string) : JsError :=
  mkError TypeError
    ("Cannot read properties of " +:+ base +:+ " (reading 'data')") JUndefined.

(** [responseData.data]: reading a property of [null] or [undefined] throws;
    an object yields the stored value or [undefined]; arrays, strings,
    numbers and booleans have no property of that name. *)
Definition get_data (v : JsValue) : Result JsValue :=
  match v with
  | JUndefined => inl (cannot_read_data "undefined")
  | JNull => inl (cannot_read_data "null")
  | JObj m => inr (prop m "data")
  | JArr _ | JStr _ | JNum _ | JBool _ => inr JUndefined
  end.

(** ** [encodeURIComponent] *)

(** The characters left as they are: letters, digits and [- _ . ! ~ * ' ( )]. *)
Definition uriUnescaped (c : ascii) : bool :=
  let n := N_of_ascii c in
  ((65 <=? n) && (n <=? 90))%N || ((97 <=? n) && (n <=? 122))%N
  || ((48 <=? n) && (n <=? 57))%N
  || existsb (Ascii.eqb c) (list_ascii_of_string "-_.!~*'()").

Definition hex_digit (n : N) : ascii :=
  nth (N.to_nat n) (list_ascii_of_string "0123456789ABCDEF") "0"%char.

(** [%XX] for one byte, in upper-case hexadecimal. *)
Definition percent_encode (c : ascii) : string :=
  let n := N_of_ascii c in
  String "%" (String (hex_digit (n / 16)) (String (hex_digit (n mod 16)) EmptyString)).

Fixpoint encodeURIComponent (s : string) : string :=
  match s with
  | EmptyString => EmptyString
  | String c rest =>
      (if uriUnescaped c then String c EmptyString else percent_encode c)
      +:+ encodeURIComponent rest
  end.

(** *** [encodeURIComponent] on any string

    A JavaScript string is a sequence of UTF-16 code units, and a surrogate
    in it may lack its partner.  Such a string has no UTF-8 form, and
    [encodeURIComponent] throws a [URIError] when it meets the surrogate. *)

Definition is_lead_surrogate (u : N) : bool := ((55296 <=? u) && (u <=? 56319))%N.

Definition is_trail_surrogate (u : N) : bool := ((56320 <=? u) && (u <=? 57343))%N.

(** The bytes of a code point in UTF-8. *)
Definition utf8_of_code_point (code_point : N) : string :=
  if (code_point <? 128)%N then String (ascii_of_N code_point) EmptyString
  else if (code_point <? 2048)%N then
    String (ascii_of_N (192 + code_point / 64))
      (String (ascii_of_N (128 + code_point mod 64)) EmptyString)
  else if (code_point <? 65536)%N then three_bytes code_point
  else
    String (ascii_of_N (240 + code_point / 262144))
      (String (ascii_of_N (128 + (code_point / 4096) mod 64))
         (String (ascii_of_N (128 + (code_point / 64) mod 64))
            (String (ascii_of_N (128 + code_point mod 64)) EmptyString))).

(** The UTF-8 form of the string with the code units [units], each a number
    below 65536; there is none when a surrogate has no partner. *)
Fixpoint utf8 (units : list N) : option string :=
  match units with
  | [] => Some EmptyString
  | u :: rest =>
      if is_lead_surrogate u then
        match rest with
        | v :: rest' =>
            if is_trail_surrogate v then
              let code_point := (65536 + (u - 55296) * 1024 + (v - 56320))%N in
              (fun s => utf8_of_code_point code_point +:+ s) <$> utf8 rest'
            else None
        | [] => None
        end
      else if is_trail_surrogate u then None
      else (fun s => utf8_of_code_point u +:+ s) <$> utf8 rest
  end.

Definition URI_malformed : JsError := mkError URIError "URI malformed" JUndefined.

(** [encodeURIComponent] of the string with the code units [units]. *)
Definition encodeURIComponent_units (units : list N) : Result string :=
  match utf8 units with
  | Some s => inr (encodeURIComponent s)
  | None => inl URI_malformed
  end.

(** ** [Buffer.from(s).toString('base64')] *)

Definition base64_digit (n : N) : ascii :=
  nth (N.to_nat n)
      (list_ascii_of_string
         "ABCDEFGHIJKLMNOPQRSTUVWXYZabcdefghijklmnopqrstuvwxyz0123456789+/")
      "="%char.

Fixpoint base64 (s : string) : string :=
  match s with
  | EmptyString => EmptyString
  | String a EmptyString =>
      let x := N_of_ascii a in
      String (base64_digit (x / 4))
        (String (base64_digit ((x mod 4) * 16)) "==")
  | String a (String b EmptyString) =>
      let x := N_of_ascii a in
      let y := N_of_ascii b in
      String (base64_digit (x / 4))
        (String (base64_digit ((x mod 4) * 16 + y / 16))
           (String (base64_digit ((y mod 16) * 4)) "="))
  | String a (String b (String c rest)) =>
      let x := N_of_ascii a in
      let y := N_of_ascii b in
      let z := N_of_ascii c in
      String (base64_digit (x / 4))
        (String (base64_digit ((x mod 4) * 16 + y / 16))
           (String (base64_digit ((y mod 16) * 4 + z / 64))
              (String (base64_digit (z mod 64)) (base64 rest))))
  end.

(** ** The host runtime *)

Inductive Method : Type := GET | POST | PUT | DELETE.

(** The options object handed to [this.helpers.request]. *)
Record HttpRequest : Type := mkRequest {
  baseURL : string;
  url : string;
  method : Method;
  body : IDataObject;
  qs : IDataObject;
  json : bool;
  headers : gmap string string
}.

(** The stored credential, with the fields that the helper reads as strings. *)
Record Credentials : Type := mkCredentials {
  baseUrl : string;
  authentication : string;
  username : string;
  password : string;
  pat : string
}.

(** The execution context [this] that the host passes to the node.
    [getNodeParameter] stands for the reads that the code casts to [string];
    [getNodeParameter_options i] is [getNodeParameter('options', i, {})];
    [helpers_request sent options] is the outcome of the transport for
    [options] after the requests [sent] earlier in the same execution.
    [NodeOperationError_message text] is the [message] of the error that
    [new NodeOperationError(this.getNode(), text, ..)] builds: the
    constructor belongs to the n8n-workflow library of the host, which puts
    a descriptive message of its own in the place of a text that holds one
    of its error codes ([ECONNREFUSED], [ENOENT] and the like).
    Reading a parameter or the credential returns; the calls to
    [this.logger] leave no trace in the results and are left out. *)
Record IExecuteFunctions : Type := mkContext {
  getInputData : list JsValue;
  getNodeParameter : string -> nat -> string;
  getNodeParameter_options : nat -> IDataObject;
  getCredentials : string -> option Credentials;
  continueOnFail : bool;
  helpers_request : list HttpRequest -> HttpRequest -> Result JsValue;
  helpers_returnJsonArray : list JsValue -> list JsValue;
  NodeOperationError_message : string -> string
}.

(** ** Effects: the log of requests sent, and exceptions *)

Definition Exec (A : Type) : Type :=
  list HttpRequest -> list HttpRequest * Result A.

Definition ret {A} (a : A) : Exec A := fun sent => (sent, inr a).

Definition throw {A} (e : JsError) : Exec A := fun sent => (sent, inl e).

Definition lift {A} (r : Result A) : Exec A := fun sent => (sent, r).

Definition bind {A B} (m : Exec A) (k : A -> Exec B) : Exec B :=
  fun sent =>
    match m sent with
    | (sent', inl e) => (sent', inl e)
    | (sent', inr a) => k a sent'
    end.

Definition try_catch {A} (m : Exec A) (handler : JsError -> Exec A) : Exec A :=
  fun sent =>
    match m sent with
    | (sent', inl e) => handler e sent'
    | (sent', inr a) => (sent', inr a)
    end.

Notation "'do' x <- m ; k" := (bind m (fun x => k))
  (at level 10, x name, m at level 100, k at level 200).

Notation "'do' ' p <- m ; k" := (bind m (fun x => match x with p => k end))
  (at level 10, p pattern, m at level 100, k at level 200).

(** The double quote character, as a string. *)
Definition dquote : string := String (ascii_of_nat 34) EmptyString.

(** [uri || resource] *)
Definition uri_or (uri : option string) (resource : string) : string :=
  match uri with
  | Some u => if decide (u = EmptyString) then resource else u
  | None => resource
  end.

(** The resources routed by the generic branch of [execute]. *)
Definition simple_resources : list string :=
  ["users"; "enumerations"; "jobs"; "collections"; "plans"; "pages";
   "testRuns"; "testRecords"; "testSteps"; "approvals"].

(** What one iteration of [execute] has decided when it calls the helper. *)
Record RequestSpec : Type := mkSpec {
  spec_method : Method;
  spec_endpoint : string;
  spec_body : IDataObject;
  spec_qs : IDataObject
}.

(** The [options] of the helper: base URL and path, method, JSON body, query
    parameters, and the three headers. *)
Definition request_options (credentials : Credentials) (header : string)
    (method : Method) (resource : string) (body qs : IDataObject)
    (uri : option string) : HttpRequest :=
  {| baseURL := baseUrl credentials;
     url := uri_or uri resource;
     method := method;
     body := body;
     qs := qs;
     json := true;
     headers :=
       {[ "Content-Type" := "application/json";
          "Accept" := "application/json";
          "Authorization" := header ]} |}.

(** The error of the defensive branch of the routing; the resource is part
    of the text that the constructor is given. *)
Definition routing_error (this : IExecuteFunctions) (resource : string) : JsError :=
  mkError NodeOperationError
    (NodeOperationError_message this
       ("Resource " +:+ dquote +:+ resource +:+ dquote +:+ " routing error."))
    JUndefined.

(** The errors of the helper for an absent credential and for an unsupported
    authentication method.  Neither text holds an error code, and the
    constructor keeps it. *)
Definition credentials_not_set : JsError :=
  mkError NodeOperationError "Polarion credentials are not set." JUndefined.

Definition invalid_authentication : JsError :=
  mkError NodeOperationError
    "Invalid authentication method specified in credentials." JUndefined.

(** The error that the helper throws for a transport failure: the upstream
    message is part of the text that the constructor is given.  The options
    of the constructor have no [response], and none is kept. *)
Definition request_failed (this : IExecuteFunctions) (error : JsError) : JsError :=
  mkError NodeOperationError
    (NodeOperationError_message this
       ("Polarion API request failed: " +:+ message error))
    JUndefined.

Section Node.

(** [JSON.parse]: the parsed value, or the message of the [SyntaxError]. *)
Variable JSON_parse : string -> string + JsValue.

Variable this : IExecuteFunctions.

(** *** [polarionApiRequest] *)

(** The [Authorization] header for the configured authentication. *)
Definition authHeader (credentials : Credentials) : Result string :=
  if decide (authentication credentials = "basic") then
    let authString :=
      base64 (username credentials +:+ ":" +:+ password credentials) in
    inr ("Basic " +:+ authString)
  else if decide (authentication credentials = "pat") then
    inr ("Bearer " +:+ pat credentials)
  else
    inl invalid_authentication.

(** [this.helpers.request(options)]: the call is logged, then answered. *)
Definition request (options : HttpRequest) : Exec JsValue :=
  fun sent => (sent ++ [options], helpers_request this sent options).

Definition polarionApiRequest (method : Method) (resource : string)
    (body qs : IDataObject) (uri : option string) : Exec JsValue :=
  match getCredentials this "polarionApi" with
  | None =>
      throw credentials_not_set
  | Some credentials =>
      do header <- lift (authHeader credentials);
      let options := request_options credentials header method resource body qs uri in
      try_catch (request options)
        (fun error => throw (request_failed this error))
  end.

(** *** [Polarion.execute] *)

(** The query parameters set before the [try] block. *)
Definition common_qs (operation : string) (options : IDataObject) : IDataObject :=
  let qs : IDataObject := ∅ in
  let qs :=
    if truthy (prop options "fields") then <["fields" := prop options "fields"]> qs
    else qs in
  if decide (operation = "list") then
    <["skip" := js_or (prop options "skip") (JNum 0)]>
      (<["limit" := js_or (prop options "limit") (JNum 50)]> qs)
  else qs.

(** The method and the body: the payload of create and update is parsed. *)
Definition payload (operation : string) (i : nat) : Result (Method * IDataObject) :=
  if decide (operation = "create" ∨ operation = "update") then
    let rawData := getNodeParameter this "data" i in
    match JSON_parse rawData with
    | inl msg => inl (mkError SyntaxError msg JUndefined)
    | inr parsed =>
        inr (if decide (operation = "create") then POST else PUT,
             Object_assign ∅ parsed)
    end
  else if decide (operation = "delete") then inr (DELETE, ∅)
  else inr (GET, ∅).

(** Resource routing: the endpoint and the query parameters. *)
Definition routing (resource operation : string) (i : nat)
    (endpoint : string) (qs : IDataObject) : Result (string * IDataObject) :=
  if decide (resource = "workItems") then
    if decide (operation = "get" ∨ operation = "update" ∨ operation = "delete") then
      let workItemId := getNodeParameter this "workItemId" i in
      inr (endpoint +:+ "/" +:+ workItemId, qs)
    else if decide (operation = "list") then
      let query := getNodeParameter this "query" i in
      inr (endpoint, <["query" := JStr query]> qs)
    else inr (endpoint, qs)
  else if decide (resource = "documents") then
    if decide (operation = "get" ∨ operation = "update" ∨ operation = "delete") then
      let documentId := getNodeParameter this "documentId" i in
      inr (endpoint +:+ "/" +:+ encodeURIComponent documentId, qs)
    else inr (endpoint, qs)
  else if decide (resource = "projects") then
    if decide (operation = "get" ∨ operation = "update" ∨ operation = "delete") then
      let projectId := getNodeParameter this "projectId" i in
      inr (endpoint +:+ "/" +:+ projectId, qs)
    else inr (endpoint, qs)
  else if bool_decide (resource ∈ simple_resources) then
    if decide (operation = "get" ∨ operation = "update" ∨ operation = "delete") then
      let resourceId := getNodeParameter this "resourceId" i in
      inr (endpoint +:+ "/" +:+ resourceId, qs)
    else inr (endpoint, qs)
  else inl (routing_error this resource).

(** Everything that the [try] block decides before it calls the helper. *)
Definition resolve (resource operation : string) (i : nat) : Result RequestSpec :=
  let endpoint := "/" +:+ resource in
  let options := getNodeParameter_options this i in
  let qs := common_qs operation options in
  result_bind (payload operation i) (fun '(method, body) =>
  result_bind (routing resource operation i endpoint qs) (fun '(endpoint, qs) =>
  inr {| spec_method := method; spec_endpoint := endpoint;
         spec_body := body; spec_qs := qs |})).

(** "Standardize output format": the records that a response contributes. *)
Definition standardize (responseData : JsValue) : Result (list JsValue) :=
  result_bind (get_data responseData) (fun data =>
  if truthy data && isArray data then inr (spread data)
  else if isArray responseData then inr (spread responseData)
  else inr [responseData]).

(** [{ error: error.message, itemIndex: i }] *)
Definition error_record (error : JsError) (i : nat) : JsValue :=
  JObj {[ "error" := JStr (message error);
          "itemIndex" := JNum (number_of_nat i) ]}.

(** The body of the [try] block for item [i]: the records to push. *)
Definition attempt (resource operation : string) (i : nat) : Exec (list JsValue) :=
  do spec <- lift (resolve resource operation i);
  do responseData <-
    polarionApiRequest (spec_method spec) (spec_endpoint spec)
      (spec_body spec) (spec_qs spec) None;
  lift (standardize responseData).

(** One iteration of the loop, from [returnData] to its next value. *)
Definition iteration (resource operation : string) (i : nat)
    (returnData : list JsValue) : Exec (list JsValue) :=
  try_catch
    (do records <- attempt resource operation i;
     ret (returnData ++ records))
    (fun error =>
       if continueOnFail this then ret (returnData ++ [error_record error i])
       else throw error).

(** [for (let i = ...; i < items.length; i++)], with [n] items left. *)
Fixpoint for_items (resource operation : string) (n i : nat)
    (returnData : list JsValue) : Exec (list JsValue) :=
  match n with
  | O => ret returnData
  | S n' =>
      do returnData' <- iteration resource operation i returnData;
      for_items resource operation n' (S i) returnData'
  end.

(** The loop of [execute]: the final [returnData]. *)
Definition execute_records : Exec (list JsValue) :=
  let items := getInputData this in
  let resource := getNodeParameter this "resource" 0 in
  let operation := getNodeParameter this "operation" 0 in
  for_items resource operation (length items) 0 [].

Definition execute : Exec (list (list JsValue)) :=
  do returnData <- execute_records;
  ret [helpers_returnJsonArray this returnData].

End Node.

(** *** The dispatch for a document identifier given by its code units

    The routing, the [try] block up to the call of the helper, and the whole
    [try] block once more, for an item whose [documentId] is the string with
    the code units [documentId i], which may lack a UTF-8 form.  All other
    parameters are read from the context as before. *)

Section CodeUnits.

Variable JSON_parse : string -> string + JsValue.
Variable this : IExecuteFunctions.
Variable documentId : nat -> list N.

Definition routing_units (resource operation : string) (i : nat)
    (endpoint : string) (qs : IDataObject) : Result (string * IDataObject) :=
  if decide (resource = "workItems") then
    if decide (operation = "get" ∨ operation = "update" ∨ operation = "delete") then
      let workItemId := getNodeParameter this "workItemId" i in
      inr (endpoint +:+ "/" +:+ workItemId, qs)
    else if decide (operation = "list") then
      let query := getNodeParameter this "query" i in
      inr (endpoint, <["query" := JStr query]> qs)
    else inr (endpoint, qs)
  else if decide (resource = "documents") then
    if decide (operation = "get" ∨ operation = "update" ∨ operation = "delete") then
      result_bind (encodeURIComponent_units (documentId i)) (fun encoded =>
      inr (endpoint +:+ "/" +:+ encoded, qs))
    else inr (endpoint, qs)
  else if decide (resource = "projects") then
    if decide (operation = "get" ∨ operation = "update" ∨ operation = "delete") then
      let projectId := getNodeParameter this "projectId" i in
      inr (endpoint +:+ "/" +:+ projectId, qs)
    else inr (endpoint, qs)
  else if bool_decide (resource ∈ simple_resources) then
    if decide (operation = "get" ∨ operation = "update" ∨ operation = "delete") then
      let resourceId := getNodeParameter this "resourceId" i in
      inr (endpoint +:+ "/" +:+ resourceId, qs)
    else inr (endpoint, qs)
  else inl (routing_error this resource).

Definition resolve_units (resource operation : string) (i : nat) : Result RequestSpec :=
  let endpoint := "/" +:+ resource in
  let options := getNodeParameter_options this i in
  let qs := common_qs operation options in
  result_bind (payload JSON_parse this operation i) (fun '(method, body) =>
  result_bind (routing_units resource operation i endpoint qs) (fun '(endpoint, qs) =>
  inr {| spec_method := method; spec_endpoint := endpoint;
         spec_body := body; spec_qs := qs |})).

Definition attempt_units (resource operation : string) (i : nat) : Exec (list JsValue) :=
  do spec <- lift (resolve_units resource operation i);
  do responseData <-
    polarionApiRequest this (spec_method spec) (spec_endpoint spec)
      (spec_body spec) (spec_qs spec) None;
  lift (standardize responseData).

End CodeUnits.

(** ** The documented routing table

    Written from sections 3 and 4.1 (steps 1 to 4) of the specification, to be
    compared with [resolve]. *)

(** The 13 resource tags. *)
Definition resources : list string :=
  ["workItems"; "documents"; "projects"] ++ simple_resources.

(** The 5 operations. *)
Definition operations : list string := ["list"; "get"; "create"; "update"; "delete"].

(** Steps 1 to 3: GET, unless create (POST), update (PUT) or delete (DELETE). *)
Definition documented_method (operation : string) : Method :=
  if decide (operation = "create") then POST
  else if decide (operation = "update") then PUT
  else if decide (operation = "delete") then DELETE
  else GET.

(** Step 4: the identifier that get, update and delete append, by resource;
    the one of a document is percent-encoded. *)
Definition documented_identifier (this : IExecuteFunctions) (resource : string)
    (i : nat) : string :=
  if decide (resource = "workItems") then getNodeParameter this "workItemId" i
  else if decide (resource = "documents") then
    encodeURIComponent (getNodeParameter this "documentId" i)
  else if decide (resource = "projects") then getNodeParameter this "projectId" i
  else getNodeParameter this "resourceId" i.

(** Steps 1 and 4: [/{resource}], followed by [/{id}] for get, update and delete. *)
Definition documented_path (this : IExecuteFunctions) (resource operation : string)
    (i : nat) : string :=
  if bool_decide (operation ∈ ["get"; "update"; "delete"]) then
    "/" +:+ resource +:+ "/" +:+ documented_identifier this resource i
  else "/" +:+ resource.

(** Step 4: the list of work items attaches the filter as [query]. *)
Definition documented_filter (this : IExecuteFunctions) (resource operation : string)
    (i : nat) (qs : IDataObject) : IDataObject :=
  if bool_decide (resource = "workItems" ∧ operation = "list") then
    <["query" := JStr (getNodeParameter this "query" i)]> qs
  else qs.

(** The request that the table prescribes for a body: the documented method,
    path and filter, over the common query parameters of the item. *)
Definition documented_request (this : IExecuteFunctions) (resource operation : string)
    (i : nat) (body : IDataObject) : RequestSpec :=
  {| spec_method := documented_method operation;
     spec_endpoint := documented_path this resource operation i;
     spec_body := body;
     spec_qs :=
       documented_filter this resource operation i
         (common_qs operation (getNodeParameter_options this i)) |}.

(** A credential is stored and its authentication method is one of the two
    that the helper supports. *)
Definition authorized (this : IExecuteFunctions) : Prop :=
  ∃ credentials, getCredentials this "polarionApi" = Some credentials
    ∧ (authentication credentials = "basic" ∨ authentication credentials = "pat").

(** The configuration errors: no credential is stored, or the stored one names
    an authentication method that the helper does not support. *)
Definition misconfigured (this : IExecuteFunctions) : Prop :=
  getCredentials this "polarionApi" = None
  ∨ ∃ credentials, getCredentials this "polarionApi" = Some credentials
      ∧ authentication credentials ≠ "basic" ∧ authentication credentials ≠ "pat".

Definition configuration_error (error : JsError) : Prop :=
  error = credentials_not_set ∨ error = invalid_authentication.

(** ** Runs of a whole batch *)

(** The context with the fail-tolerant flag set to [b], all else unchanged. *)
Definition with_continueOnFail (b : bool) (this : IExecuteFunctions) : IExecuteFunctions :=
  {| getInputData := getInputData this;
     getNodeParameter := getNodeParameter this;
     getNodeParameter_options := getNodeParameter_options this;
     getCredentials := getCredentials this;
     continueOnFail := b;
     helpers_request := helpers_request this;
     helpers_returnJsonArray := helpers_returnJsonArray this;
     NodeOperationError_message := NodeOperationError_message this |}.

(** The outcomes of the [try] block for the [n] items from index [i] on, each
    attempted after the previous one, with the log of requests at the end. *)
Fixpoint attempts (JSON_parse : string -> string + JsValue) (this : IExecuteFunctions)
    (resource operation : string) (n i : nat) (sent : list HttpRequest)
    : list HttpRequest * list (Result (list JsValue)) :=
  match n with
  | O => (sent, [])
  | S n' =>
      let '(sent', outcome) := attempt JSON_parse this resource operation i sent in
      let '(sent'', outcomes) :=
        attempts JSON_parse this resource operation n' (S i) sent' in
      (sent'', outcome :: outcomes)
  end.

(** What an outcome adds to [returnData] when errors are tolerated. *)
Definition recorded (i : nat) (outcome : Result (list JsValue)) : list JsValue :=
  match outcome with
  | inr records => records
  | inl error => [error_record error i]
  end.

(** The records of the outcomes of the items from index [i] on. *)
Fixpoint recorded_from (i : nat) (outcomes : list (Result (list JsValue)))
    : list JsValue :=
  match outcomes with
  | [] => []
  | outcome :: rest => recorded i outcome ++ recorded_from (S i) rest
  end.

(** ** Sample inputs *)

(** The string with the given bytes. *)
Definition string_of_bytes (bytes : list N) : string :=
  string_of_list_ascii (ascii_of_N <$> bytes).

(** [JSON.parse] at the texts used below; every other text counts as
    rejected. *)
Definition sample_JSON_parse (text : string) : string + JsValue :=
  if decide (text = "{}") then inr (JObj ∅)
  else if decide (text = "[1]") then inr (JArr [JNum 1])
  else if decide (text = "null") then inr JNull
  else if decide (text = string_of_bytes [34; 240; 159; 152; 128; 34]%N) then
    inr (JStr (string_of_bytes [240; 159; 152; 128]%N))
  else inl "Unexpected end of JSON input".

(** Parameter values: the selected resource and operation, the payload text,
    and the placeholders of the node's fields. *)
Definition sample_parameters (resource operation data : string)
    (name : string) (i : nat) : string :=
  if decide (name = "resource") then resource
  else if decide (name = "operation") then operation
  else if decide (name = "workItemId") then "MyProject-123"
  else if decide (name = "documentId") then "MyProject/Specification"
  else if decide (name = "projectId") then "MyProject"
  else if decide (name = "resourceId") then "resource_id_123"
  else if decide (name = "query") then "status:open"
  else if decide (name = "data") then data
  else EmptyString.

Definition sample_credentials (authentication : string) : Credentials :=
  {| baseUrl := "https://polarion.example.com/polarion/api/rest/v1";
     authentication := authentication;
     username := "user";
     password := "pass";
     pat := "s3cr3t" |}.

(** The message that n8n's constructor keeps, at the texts used below: the
    one that holds [ECONNREFUSED] is replaced, the others are kept. *)
Definition sample_NodeOperationError_message (text : string) : string :=
  if decide (text = "Polarion API request failed: connect ECONNREFUSED 127.0.0.1:443")
  then "The service refused the connection - perhaps it is offline"
  else text.

(** A context with [n] input items. *)
Definition sample_context (n : nat) (resource operation data : string)
    (options : IDataObject) (tolerant : bool) (credentials : option Credentials)
    (transport : list HttpRequest -> HttpRequest -> Result JsValue)
    : IExecuteFunctions :=
  {| getInputData := replicate n (JObj ∅);
     getNodeParameter := sample_parameters resource operation data;
     getNodeParameter_options := fun _ => options;
     getCredentials := fun _ => credentials;
     continueOnFail := tolerant;
     helpers_request := transport;
     helpers_returnJsonArray := fmap (fun d => JObj {[ "json" := d ]});
     NodeOperationError_message := sample_NodeOperationError_message |}.

(** A transport that answers every request with an empty object. *)
Definition transport_ok (sent : list HttpRequest) (options : HttpRequest)
    : Result JsValue :=
  inr (JObj ∅).

(** A transport that answers the first request with two work items wrapped in
    [data] and fails on every later one. *)
Definition transport_list_then_fail (sent : list HttpRequest) (options : HttpRequest)
    : Result JsValue :=
  match sent with
  | [] => inr (JObj {[ "data" := JArr [JStr "WI-1"; JStr "WI-2"] ]})
  | _ :: _ => inl (mkError HostError "socket hang up" JUndefined)
  end.

(** A transport whose connection is refused. *)
Definition transport_refused (sent : list HttpRequest) (options : HttpRequest)
    : Result JsValue :=
  inl (mkError HostError "connect ECONNREFUSED 127.0.0.1:443" JUndefined).

(** A transport that answers every request with the JSON value [null]. *)
Definition transport_null (sent : list HttpRequest) (options : HttpRequest)
    : Result JsValue :=
  inr JNull.

(** The sample contexts: the item or batch that each one stands for. *)

Definition get_document : IExecuteFunctions :=
  sample_context 1 "documents" "get" "{}" ∅ false
    (Some (sample_credentials "basic")) transport_ok.

Definition update_document : IExecuteFunctions :=
  sample_context 1 "documents" "update" "{}" ∅ false
    (Some (sample_credentials "basic")) transport_ok.

Definition list_workItems : IExecuteFunctions :=
  sample_context 1 "workItems" "list" "{}" ∅ false
    (Some (sample_credentials "basic")) transport_ok.

Definition list_workItems_refused : IExecuteFunctions :=
  sample_context 1 "workItems" "list" "{}" ∅ true
    (Some (sample_credentials "basic")) transport_refused.

Definition list_workItems_zero : IExecuteFunctions :=
  sample_context 1 "workItems" "list" "{}"
    {[ "limit" := JNum 0; "skip" := JNum 0 ]} false
    (Some (sample_credentials "basic")) transport_ok.

Definition delete_project_fields : IExecuteFunctions :=
  sample_context 1 "projects" "delete" "{}" {[ "fields" := JStr "id,title" ]} false
    (Some (sample_credentials "pat")) transport_ok.

Definition list_workItems_wrapped : IExecuteFunctions :=
  sample_context 1 "workItems" "list" "{}" ∅ false
    (Some (sample_credentials "basic")) transport_list_then_fail.

Definition create_empty_text : IExecuteFunctions :=
  sample_context 2 "workItems" "create" EmptyString ∅ true
    (Some (sample_credentials "basic")) transport_ok.

Definition create_array_payload : IExecuteFunctions :=
  sample_context 1 "workItems" "create" "[1]" ∅ false
    (Some (sample_credentials "basic")) transport_ok.

(** A create whose payload text is the JSON string of the one character
    U+1F600. *)
Definition create_string_payload : IExecuteFunctions :=
  sample_context 1 "workItems" "create"
    (string_of_bytes [34; 240; 159; 152; 128; 34]%N) ∅ false
    (Some (sample_credentials "basic")) transport_ok.

Definition get_null_response : IExecuteFunctions :=
  sample_context 1 "workItems" "get" "{}" ∅ false
    (Some (sample_credentials "basic")) transport_null.

Definition batch_second_fails : IExecuteFunctions :=
  sample_context 2 "workItems" "list" "{}" ∅ true
    (Some (sample_credentials "basic")) transport_list_then_fail.

Definition batch_no_credential : IExecuteFunctions :=
  sample_context 2 "workItems" "list" "{}" ∅ true None transport_ok.

Definition batch_unsupported_authentication : IExecuteFunctions :=
  sample_context 2 "workItems" "list" "{}" ∅ true
    (Some (sample_credentials "oauth2")) transport_ok.

(** The error that the helper makes of the failure of
    [transport_list_then_fail]. *)
Definition socket_hang_up : JsError :=
  request_failed batch_second_fails (mkError HostError "socket hang up" JUndefined).

(** The 65 rows of the table for the placeholders of the node's fields:
    resource, operation, method and path. *)
Definition sample_table : list (string * string * Method * string) :=
  [("workItems", "list", GET, "/workItems");
   ("workItems", "get", GET, "/workItems/MyProject-123");
   ("workItems", "create", POST, "/workItems");
   ("workItems", "update", PUT, "/workItems/MyProject-123");
   ("workItems", "delete", DELETE, "/workItems/MyProject-123");
   ("documents", "list", GET, "/documents");
   ("documents", "get", GET, "/documents/MyProject%2FSpecification");
   ("documents", "create", POST, "/documents");
   ("documents", "update", PUT, "/documents/MyProject%2FSpecification");
   ("documents", "delete", DELETE, "/documents/MyProject%2FSpecification");
   ("projects", "list", GET, "/projects");
   ("projects", "get", GET, "/projects/MyProject");
   ("projects", "create", POST, "/projects");
   ("projects", "update", PUT, "/projects/MyProject");
   ("projects", "delete", DELETE, "/projects/MyProject");
   ("users", "list", GET, "/users"); ("users", "get", GET, "/users/resource_id_123");
   ("users", "create", POST, "/users");
   ("users", "update", PUT, "/users/resource_id_123");
   ("users", "delete", DELETE, "/users/resource_id_123");
   ("enumerations", "list", GET, "/enumerations");
   ("enumerations", "get", GET, "/enumerations/resource_id_123");
   ("enumerations", "create", POST, "/enumerations");
   ("enumerations", "update", PUT, "/enumerations/resource_id_123");
   ("enumerations", "delete", DELETE, "/enumerations/resource_id_123");
   ("jobs", "list", GET, "/jobs"); ("jobs", "get", GET, "/jobs/resource_id_123");
   ("jobs", "create", POST, "/jobs"); ("jobs", "update", PUT, "/jobs/resource_id_123");
   ("jobs", "delete", DELETE, "/jobs/resource_id_123");
   ("collections", "list", GET, "/collections");
   ("collections", "get", GET, "/collections/resource_id_123");
   ("collections", "create", POST, "/collections");
   ("collections", "update", PUT, "/collections/resource_id_123");
   ("collections", "delete", DELETE, "/collections/resource_id_123");
   ("plans", "list", GET, "/plans"); ("plans", "get", GET, "/plans/resource_id_123");
   ("plans", "create", POST, "/plans");
   ("plans", "update", PUT, "/plans/resource_id_123");
   ("plans", "delete", DELETE, "/plans/resource_id_123");
   ("pages", "list", GET, "/pages"); ("pages", "get", GET, "/pages/resource_id_123");
   ("pages", "create", POST, "/pages");
   ("pages", "update", PUT, "/pages/resource_id_123");
   ("pages", "delete", DELETE, "/pages/resource_id_123");
   ("testRuns", "list", GET, "/testRuns");
   ("testRuns", "get", GET, "/testRuns/resource_id_123");
   ("testRuns", "create", POST, "/testRuns");
   ("testRuns", "update", PUT, "/testRuns/resource_id_123");
   ("testRuns", "delete", DELETE, "/testRuns/resource_id_123");
   ("testRecords", "list", GET, "/testRecords");
   ("testRecords", "get", GET, "/testRecords/resource_id_123");
   ("testRecords", "create", POST, "/testRecords");
   ("testRecords", "update", PUT, "/testRecords/resource_id_123");
   ("testRecords", "delete", DELETE, "/testRecords/resource_id_123");
   ("testSteps", "list", GET, "/testSteps");
   ("testSteps", "get", GET, "/testSteps/resource_id_123");
   ("testSteps", "create", POST, "/testSteps");
   ("testSteps", "update", PUT, "/testSteps/resource_id_123");
   ("testSteps", "delete", DELETE, "/testSteps/resource_id_123");
   ("approvals", "list", GET, "/approvals");
   ("approvals", "get", GET, "/approvals/resource_id_123");
   ("approvals", "create", POST, "/approvals");
   ("approvals", "update", PUT, "/approvals/resource_id_123");
   ("approvals", "delete", DELETE, "/approvals/resource_id_123")].

(** The method and the endpoint that [resolve] yields, if it yields any. *)
Definition resolved_route (JSON_parse : string -> string + JsValue)
    (this : IExecuteFunctions) (resource operation : string) (i : nat)
    : option (Method * string) :=
  match resolve JSON_parse this resource operation i with
  | inr spec => Some (spec_method spec, spec_endpoint spec)
  | inl _ => None
  end.

(** ** The declarations of the node and of the credential type

    The property arrays of [Polarion.node.ts] and of the credential class
    [PolarionApi], field by field.  An absent field of the source is [None],
    an absent list is empty. *)

Module Declared.

(** An entry of an [options] selector. *)
Record INodePropertyOptions : Type := mkOption {
  option_name : string;
  value : string;
  option_description : option string
}.

(** A declared property; [displayOptions] holds the lists under [show], and
    [options] the entries of a selector or the properties of a collection. *)
Inductive INodeProperties : Type := mkProperty {
  displayName : string;
  name : string;
  type : string;
  default : JsValue;
  placeholder : option string;
  description : option string;
  required : option bool;
  typeOptions : list (string * JsValue);
  displayOptions : option (list (string * list string));
  options : list (INodePropertyOptions + INodeProperties)
}.

Definition workItemFields : list INodeProperties :=
  [{| displayName := "Work Item ID";
      name := "workItemId";
      type := "string";
      default := JStr EmptyString;
      placeholder := Some "MyProject-123";
      description := Some "The ID of the work item to retrieve, update, or delete.";
      required := Some true;
      typeOptions := [];
      displayOptions :=
        Some [("resource", ["workItems"]);
          ("operation", ["get"; "update"; "delete"])];
      options := [] |};
   {| displayName := "PQL Query (List)";
      name := "query";
      type := "string";
      default := JStr "status:open";
      placeholder := None;
      description :=
        Some "Polarion Query Language (PQL) string to filter work items (e.g., type:Defect)";
      required := None;
      typeOptions := [];
      displayOptions :=
        Some [("resource", ["workItems"]);
          ("operation", ["list"])];
      options := [] |}].

Definition documentFields : list INodeProperties :=
  [{| displayName := "Document ID";
      name := "documentId";
      type := "string";
      default := JStr EmptyString;
      placeholder := Some "MyProject/Specification";
      description :=
        Some "The ID of the Document (often path-based: Project/Space/Name)";
      required := Some true;
      typeOptions := [];
      displayOptions :=
        Some [("resource", ["documents"]);
          ("operation", ["get"; "update"; "delete"])];
      options := [] |}].

Definition projectFields : list INodeProperties :=
  [{| displayName := "Project ID";
      name := "projectId";
      type := "string";
      default := JStr EmptyString;
      placeholder := Some "MyProject";
      description := Some "The ID of the Project.";
      required := Some true;
      typeOptions := [];
      displayOptions :=
        Some [("resource", ["projects"]);
          ("operation", ["get"; "update"; "delete"])];
      options := [] |}].

Definition genericDataField : INodeProperties :=
  {| displayName := "Data (JSON)";
     name := "data";
     type := "json";
     default := JStr "{}";
     placeholder := None;
     description :=
       Some "JSON payload containing the data for Create or Update operations. Refer to Polarion API documentation for required schema.";
     required := None;
     typeOptions := [];
     displayOptions := Some [("operation", ["create"; "update"])];
     options := [] |}.

Definition simpleResourceIdField : INodeProperties :=
  {| displayName := "Resource ID";
     name := "resourceId";
     type := "string";
     default := JStr EmptyString;
     placeholder := Some "resource_id_123";
     description := Some "The ID of the resource to Get, Update, or Delete.";
     required := Some true;
     typeOptions := [];
     displayOptions :=
       Some [("resource",
          ["users"; "enumerations"; "jobs"; "collections"; "plans"; "pages"; "testRuns"; "testRecords"; "testSteps"; "approvals"]);
         ("operation", ["get"; "update"; "delete"])];
     options := [] |}.

Definition allProperties : list INodeProperties :=
  workItemFields ++ documentFields ++ projectFields
  ++ [simpleResourceIdField; genericDataField].

(** The resource selector. *)
Definition resourceSelector : INodeProperties :=
  {| displayName := "Resource";
     name := "resource";
     type := "options";
     default := JStr "workItems";
     placeholder := None;
     description := Some "The Polarion resource to interact with.";
     required := Some true;
     typeOptions := [];
     displayOptions := None;
     options :=
      [inl {| option_name := "Work Item";
              value := "workItems";
              option_description := None |};
       inl {| option_name := "Document";
              value := "documents";
              option_description := None |};
       inl {| option_name := "Project";
              value := "projects";
              option_description := None |};
       inl {| option_name := "User";
              value := "users";
              option_description := None |};
       inl {| option_name := "Enumeration";
              value := "enumerations";
              option_description := None |};
       inl {| option_name := "Job";
              value := "jobs";
              option_description := None |};
       inl {| option_name := "Collection";
              value := "collections";
              option_description := None |};
       inl {| option_name := "Plan";
              value := "plans";
              option_description := None |};
       inl {| option_name := "Page";
              value := "pages";
              option_description := None |};
       inl {| option_name := "Test Run";
              value := "testRuns";
              option_description := None |};
       inl {| option_name := "Test Record";
              value := "testRecords";
              option_description := None |};
       inl {| option_name := "Test Step";
              value := "testSteps";
              option_description := None |};
       inl {| option_name := "Approval";
              value := "approvals";
              option_description := None |}] |}.

(** The operation selector. *)
Definition operationSelector : INodeProperties :=
  {| displayName := "Operation";
     name := "operation";
     type := "options";
     default := JStr "list";
     placeholder := None;
     description := Some "The operation to perform.";
     required := Some true;
     typeOptions := [];
     displayOptions := None;
     options :=
      [inl {| option_name := "List";
              value := "list";
              option_description := Some "List resources (search/query)." |};
       inl {| option_name := "Get";
              value := "get";
              option_description := Some "Retrieve a single resource by ID." |};
       inl {| option_name := "Create";
              value := "create";
              option_description := Some "Create a new resource." |};
       inl {| option_name := "Update";
              value := "update";
              option_description := Some "Update an existing resource by ID." |};
       inl {| option_name := "Delete";
              value := "delete";
              option_description := Some "Delete a resource by ID." |}] |}.

(** The collection of common options. *)
Definition commonOptions : INodeProperties :=
  {| displayName := "Common Options";
     name := "options";
     type := "collection";
     default := JObj ∅;
     placeholder := Some "Add Options";
     description := Some "Additional parameters for querying the API.";
     required := None;
     typeOptions := [];
     displayOptions := Some [("operation", ["list"; "get"])];
     options :=
      [inr
         {| displayName := "Fields to Return";
            name := "fields";
            type := "string";
            default := JStr EmptyString;
            placeholder := Some "id,title,status";
            description :=
              Some "Comma-separated list of fields to return (optimization parameter).";
            required := None;
            typeOptions := [];
            displayOptions := None;
            options := [] |};
       inr
         {| displayName := "Limit (Maximum Results)";
            name := "limit";
            type := "number";
            default := JNum 50;
            placeholder := None;
            description := Some "Max number of results to return (default: 50).";
            required := None;
            typeOptions := [];
            displayOptions := Some [("operation", ["list"])];
            options := [] |};
       inr
         {| displayName := "Skip (Offset)";
            name := "skip";
            type := "number";
            default := JNum 0;
            placeholder := None;
            description := Some "Number of results to skip (for pagination).";
            required := None;
            typeOptions := [];
            displayOptions := Some [("operation", ["list"])];
            options := [] |}] |}.

(** [description] of the class [Polarion]. *)
Record INodeTypeDescription : Type := mkDescription {
  node_displayName : string;
  node_name : string;
  icon : string;
  group : list string;
  version : nat;
  subtitle : string;
  node_description : string;
  credentials : list (string * bool);
  defaults_name : string;
  inputs : list string;
  outputs : list string;
  properties : list INodeProperties
}.

Definition Polarion_description : INodeTypeDescription :=
  {| node_displayName := "Polarion";
     node_name := "polarion";
     icon := "file:polarion.svg";
     group := ["output"];
     version := 1;
     subtitle := "={{$parameter.operation}}: {{$parameter.resource}}";
     node_description := "Interact with the Siemens Polarion REST API";
     credentials := [("polarionApi", true)];
     defaults_name := "Polarion";
     inputs := ["main"];
     outputs := ["main"];
     properties :=
       [resourceSelector; operationSelector] ++ allProperties ++ [commonOptions] |}.

(** The credential class [PolarionApi]. *)
Record ICredentialType : Type := mkCredentialType {
  credential_name : string;
  credential_displayName : string;
  documentationUrl : string;
  credential_properties : list INodeProperties
}.

Definition PolarionApi_properties : list INodeProperties :=
  [{| displayName := "Base URL";
      name := "baseUrl";
      type := "string";
      default := JStr "https://polarion.example.com/polarion/api/rest/v1";
      placeholder := Some "https://polarion.example.com/polarion/api/rest/v1";
      description :=
        Some "The base URL of your Polarion instance REST API (Must include /polarion/api/rest/v1)";
      required := Some true;
      typeOptions := [];
      displayOptions := None;
      options := [] |};
   {| displayName := "Authentication Method";
      name := "authentication";
      type := "options";
      default := JStr "basic";
      placeholder := None;
      description := Some "Select the authentication method to use.";
      required := None;
      typeOptions := [];
      displayOptions := None;
      options :=
       [inl {| option_name := "Basic Auth (Username and Password)";
               value := "basic";
               option_description := None |};
        inl {| option_name := "Personal Access Token (PAT)";
               value := "pat";
               option_description := None |}] |};
   {| displayName := "Username";
      name := "username";
      type := "string";
      default := JStr EmptyString;
      placeholder := None;
      description := None;
      required := Some true;
      typeOptions := [];
      displayOptions := Some [("authentication", ["basic"])];
      options := [] |};
   {| displayName := "Password";
      name := "password";
      type := "string";
      default := JStr EmptyString;
      placeholder := None;
      description := None;
      required := Some true;
      typeOptions := [("password", JBool true)];
      displayOptions := Some [("authentication", ["basic"])];
      options := [] |};
   {| displayName := "Personal Access Token";
      name := "pat";
      type := "string";
      default := JStr EmptyString;
      placeholder := None;
      description := Some "Your generated Polarion Personal Access Token.";
      required := Some true;
      typeOptions := [("password", JBool true)];
      displayOptions := Some [("authentication", ["pat"])];
      options := [] |}].

Definition PolarionApi : ICredentialType :=
  {| credential_name := "polarionApi";
     credential_displayName := "Polarion API";
     documentationUrl :=
       "https://docs.n8n.io/integrations/creating-nodes/build/reference/credentials-files/";
     credential_properties := PolarionApi_properties |}.

(** The values that a selector offers. *)
Definition values (p : INodeProperties) : list string :=
  omap (fun entry => match entry with inl o => Some (value o) | inr _ => None end)
       (options p).

(** The properties that a collection holds. *)
Definition entries (p : INodeProperties) : list INodeProperties :=
  omap (fun entry => match entry with inl _ => None | inr q => Some q end)
       (options p).

(** The reading that n8n gives to [displayOptions.show]: a property is
    listed for a selection when every key under [show] is selected with one
    of the values listed for it; a property without [displayOptions] is
    listed for every selection. *)
Definition shown_for (selected : string -> option string) (p : INodeProperties) : bool :=
  match displayOptions p with
  | None => true
  | Some show =>
      forallb (fun '(key, listed) =>
                 match selected key with
                 | Some v => bool_decide (v ∈ listed)
                 | None => false
                 end) show
  end.

(** The selection of a resource and an operation. *)
Definition selection (resource operation : string) (key : string) : option string :=
  if decide (key = "resource") then Some resource
  else if decide (key = "operation") then Some operation
  else None.

(** The selection of an authentication method. *)
Definition method_selection (authentication : string) (key : string) : option string :=
  if decide (key = "authentication") then Some authentication else None.

(** The options of an item in which every entry of the collection holds its
    declared default. *)
Definition default_options : IDataObject :=
  list_to_map ((fun q => (name q, default q)) <$> entries commonOptions).

End Declared.

(** [credentials[name]], for the names that the credential type declares. *)
Definition credential_field (credentials : Credentials) (name : string) : option string :=
  if decide (name = "baseUrl") then Some (baseUrl credentials)
  else if decide (name = "authentication") then Some (authentication credentials)
  else if decide (name = "username") then Some (username credentials)
  else if decide (name = "password") then Some (password credentials)
  else if decide (name = "pat") then Some (pat credentials)
  else None.

(** The context in which the parameters read [f] and the options read [g],
    all else unchanged. *)
Definition with_parameters (f : string -> nat -> string) (g : nat -> IDataObject)
    (this : IExecuteFunctions) : IExecuteFunctions :=
  {| getInputData := getInputData this;
     getNodeParameter := f;
     getNodeParameter_options := g;
     getCredentials := getCredentials this;
     continueOnFail := continueOnFail this;
     helpers_request := helpers_request this;
     helpers_returnJsonArray := helpers_returnJsonArray this;
     NodeOperationError_message := NodeOperationError_message this |}.

(** The context with the stored credential replaced. *)
Definition with_credentials (stored : option Credentials)
    (this : IExecuteFunctions) : IExecuteFunctions :=
  {| getInputData := getInputData this;
     getNodeParameter := getNodeParameter this;
     getNodeParameter_options := getNodeParameter_options this;
     getCredentials := fun _ => stored;
     continueOnFail := continueOnFail this;
     helpers_request := helpers_request this;
     helpers_returnJsonArray := helpers_returnJsonArray this;
     NodeOperationError_message := NodeOperationError_message this |}.

(** ** The inverse of base64, to show that the encoding loses nothing *)

(** The position of the first occurrence of a character in a list; the
    length of the list when there is none. *)
Fixpoint index_of (c : ascii) (l : list ascii) : nat :=
  match l with
  | [] => 0
  | d :: rest => if Ascii.eqb c d then 0 else S (index_of c rest)
  end.



(** The number of characters of a string that [encodeURIComponent] escapes. *)
Fixpoint escaped (s : string) : nat :=
  match s with
  | EmptyString => 0
  | String c rest => (if uriUnescaped c then 0 else 1) + escaped rest
  end.

(** Further sample inputs. *)

Definition empty_batch : IExecuteFunctions :=
  sample_context 0 "workItems" "list" "{}" ∅ false None transport_ok.

Definition get_workItem : IExecuteFunctions :=
  sample_context 1 "workItems" "get" "{}" ∅ false
    (Some (sample_credentials "basic")) transport_ok.

Definition list_workItems_unchecked : IExecuteFunctions :=
  sample_context 1 "workItems" "list" "{}"
    {[ "limit" := JNum (-5); "skip" := JNum (-5) ]} false
    (Some (sample_credentials "basic")) transport_ok.

Definition list_workItems_defaults : IExecuteFunctions :=
  sample_context 1 "workItems" "list" "{}" Declared.default_options false
    (Some (sample_credentials "basic")) transport_ok.

(** The parameters of [batch_second_fails], except that the resource would
    read [documents] for every item after the first. *)
Definition resource_changes_later (name : string) (i : nat) : string :=
  if decide (name = "resource" ∧ i ≠ 0) then "documents"
  else sample_parameters "workItems" "list" "{}" name i.

(** The parameters of [get_workItem], with another document identifier. *)
Definition other_document (name : string) (i : nat) : string :=
  if decide (name = "documentId") then "Other/Document"
  else sample_parameters "workItems" "get" "{}" name i.

(** Two credentials of basic authentication with the same header. *)
Definition colon_in_username : Credentials :=
  {| baseUrl := "https://polarion.example.com/polarion/api/rest/v1";
     authentication := "basic";
     username := "ops:team";
     password := "secret";
     pat := EmptyString |}.

Definition colon_in_password : Credentials :=
  {| baseUrl := "https://polarion.example.com/polarion/api/rest/v1";
     authentication := "basic";
     username := "ops";
     password := "team:secret";
     pat := EmptyString |}.

(** The sample credential of basic authentication with another token. *)
Definition other_token : Credentials :=
  {| baseUrl := "https://polarion.example.com/polarion/api/rest/v1";
     authentication := "basic";
     username := "user";
     password := "pass";
     pat := "0th3r" |}.

(** The request that item [i] sends, if it sends one: the resolved request,
    under the header of the stored credential. *)
Definition request_of_item (JSON_parse : string -> string + JsValue)
    (this : IExecuteFunctions) (resource operation : string) (i : nat)
    (request : HttpRequest) : Prop :=
  ∃ spec credentials header,
    resolve JSON_parse this resource operation i = inr spec
    ∧ getCredentials this "polarionApi" = Some credentials
    ∧ authHeader credentials = inr header
    ∧ request
      = request_options credentials header (spec_method spec) (spec_endpoint spec)
          (spec_body spec) (spec_qs spec) None.

(** * Properties *)

(** ** Test vectors for the JavaScript functions *)

Example base64_vectors :
  base64 "user:pass" = "dXNlcjpwYXNz"
  /\ base64 "Aladdin:open sesame" = "QWxhZGRpbjpvcGVuIHNlc2FtZQ=="
  /\ base64 "a" = "YQ==" /\ base64 "ab" = "YWI=" /\ base64 "abc" = "YWJj".
Proof. repeat split; reflexivity. Qed.

Example encodeURIComponent_vectors :
  encodeURIComponent "MyProject/Specification" = "MyProject%2FSpecification"
  /\ encodeURIComponent "a b&c=d?e#f" = "a%20b%26c%3Dd%3Fe%23f"
  /\ encodeURIComponent "-_.!~*'()" = "-_.!~*'()".
Proof. repeat split; reflexivity. Qed.

(** The letter [é] is one code unit and two bytes, the euro sign one code
    unit and three bytes, and the character U+1F600 a surrogate pair and
    four bytes. *)
Example utf8_vectors :
  utf8 [65; 47; 233]%N = Some (string_of_bytes [65; 47; 195; 169]%N)
  /\ utf8 [8364]%N = Some (string_of_bytes [226; 130; 172]%N)
  /\ utf8 [55357; 56832]%N = Some (string_of_bytes [240; 159; 152; 128]%N)
  /\ utf8 [55357]%N = None /\ utf8 [56832; 55357]%N = None
  /\ utf8 [65; 55296; 66]%N = None
  /\ encodeURIComponent_units [55357; 56832]%N = inr "%F0%9F%98%80"
  /\ encodeURIComponent_units [56832]%N = inl URI_malformed.
Proof. repeat split; reflexivity. Qed.

Example code_units_vectors :
  code_units "ab" = ["a"; "b"]
  /\ code_units (string_of_bytes [65; 195; 169; 226; 130; 172]%N)
     = ["A"; string_of_bytes [195; 169]%N; string_of_bytes [226; 130; 172]%N]
  /\ code_units (string_of_bytes [240; 159; 152; 128]%N)
     = [string_of_bytes [237; 160; 189]%N; string_of_bytes [237; 184; 128]%N].
Proof. repeat split; reflexivity. Qed.

Example Object_assign_vectors :
  Object_assign ∅ (JObj {[ "__proto__" := JObj {[ "a" := JNum 1 ]}; "b" := JNum 2 ]})
  = {[ "b" := JNum 2 ]}
  /\ Object_assign ∅ (JStr (string_of_bytes [195; 169]%N))
     = {[ "0" := JStr (string_of_bytes [195; 169]%N) ]}
  /\ Object_assign ∅ (JArr [JNull; JBool true]) = {[ "0" := JNull; "1" := JBool true ]}
  /\ Object_assign {[ "a" := JNum 1 ]} (JObj {[ "a" := JNum 2 ]}) = {[ "a" := JNum 2 ]}
  /\ Object_assign ∅ (JNum 7) = ∅.
Proof. repeat split; reflexivity. Qed.

Example truthy_vectors :
  truthy (JNum 0) = false /\ truthy (JNum (-0)) = false
  /\ truthy (JNum nan) = false /\ truthy (JNum 50) = true
  /\ truthy (JStr EmptyString) = false /\ truthy (JStr "id,title") = true
  /\ truthy (JArr []) = true /\ truthy (JObj ∅) = true.
Proof. repeat split; reflexivity. Qed.

(** The table, row by row, on the sample parameters. *)
Example sample_table_resolved :
  length sample_table = 65
  /\ Forall (fun '(resource, operation, method, endpoint) =>
              resolved_route sample_JSON_parse get_document resource operation 0
              = Some (method, endpoint)) sample_table.
Proof. split; [reflexivity |]. unfold sample_table. repeat constructor. Qed.

(** ** The request helper *)

Section Helper.

Variable this : IExecuteFunctions.

Lemma polarionApiRequest_no_credentials method resource body qs uri sent :
  getCredentials this "polarionApi" = None ->
  polarionApiRequest this method resource body qs uri sent
  = (sent, inl credentials_not_set).
Proof. intros H. unfold polarionApiRequest. rewrite H. reflexivity. Qed.

Lemma polarionApiRequest_unauthorized credentials error method resource body qs uri sent :
  getCredentials this "polarionApi" = Some credentials ->
  authHeader credentials = inl error ->
  polarionApiRequest this method resource body qs uri sent = (sent, inl error).
Proof.
  intros H Ha. unfold polarionApiRequest, bind, lift. rewrite H, Ha. reflexivity.
Qed.

(** With a credential and a header, exactly one request goes out; a failure
    of the transport comes back wrapped. *)
Lemma polarionApiRequest_sends credentials header method resource body qs uri sent :
  getCredentials this "polarionApi" = Some credentials ->
  authHeader credentials = inr header ->
  polarionApiRequest this method resource body qs uri sent
  = let options := request_options credentials header method resource body qs uri in
    (sent ++ [options],
     match helpers_request this sent options with
     | inl error => inl (request_failed this error)
     | inr responseData => inr responseData
     end).
Proof.
  intros H Ha. unfold polarionApiRequest, bind, lift, try_catch, request, throw.
  rewrite H, Ha. cbn. destruct (helpers_request _ _ _); reflexivity.
Qed.

Lemma authHeader_basic credentials :
  authentication credentials = "basic" ->
  authHeader credentials
  = inr ("Basic " +:+ base64 (username credentials +:+ ":" +:+ password credentials)).
Proof. intros H. unfold authHeader. rewrite decide_True by done. reflexivity. Qed.

Lemma authHeader_pat credentials :
  authentication credentials = "pat" ->
  authHeader credentials = inr ("Bearer " +:+ pat credentials).
Proof.
  intros H. unfold authHeader. rewrite decide_False by (rewrite H; done).
  rewrite decide_True by done. reflexivity.
Qed.

Lemma authHeader_other credentials :
  authentication credentials ≠ "basic" -> authentication credentials ≠ "pat" ->
  authHeader credentials = inl invalid_authentication.
Proof. intros H1 H2. unfold authHeader. by rewrite !decide_False. Qed.

Lemma authHeader_cases credentials :
  (authentication credentials = "basic" ∨ authentication credentials = "pat")
  ∨ authHeader credentials = inl invalid_authentication.
Proof.
  destruct (decide (authentication credentials = "basic")); [by left; left |].
  destruct (decide (authentication credentials = "pat")); [by left; right |].
  right. by apply authHeader_other.
Qed.

Lemma request_options_authorization credentials header method resource body qs uri :
  headers (request_options credentials header method resource body qs uri)
    !! "Authorization" = Some header.
Proof. reflexivity. Qed.

(** C4: every request that the helper issues carries an [Authorization]
    header.  With a stored credential, basic authentication sends one request
    whose header is [Basic ] followed by the base64 form of
    [username:password]; token authentication (the [pat] method) sends one
    request whose header is [Bearer ] followed by the stored token; any other
    method raises the configuration error and leaves the log of requests
    untouched, so no network call is attempted. *)
Theorem C4_authorization_header (method : Method) (resource : string)
    (body qs : IDataObject) (uri : option string) (sent : list HttpRequest) :
  let run := polarionApiRequest this method resource body qs uri sent in
  (∀ options, options ∈ run.1 -> options ∈ sent ∨ is_Some (headers options !! "Authorization"))
  ∧ (∀ credentials, getCredentials this "polarionApi" = Some credentials ->
       (authentication credentials = "basic" ->
          ∃ options, run.1 = sent ++ [options]
            ∧ headers options !! "Authorization"
              = Some ("Basic " +:+ base64 (username credentials +:+ ":" +:+ password credentials)))
       ∧ (authentication credentials = "pat" ->
          ∃ options, run.1 = sent ++ [options]
            ∧ headers options !! "Authorization" = Some ("Bearer " +:+ pat credentials))
       ∧ (authentication credentials ≠ "basic" -> authentication credentials ≠ "pat" ->
          run = (sent, inl invalid_authentication))).
Proof.
  cbn zeta. split.
  - intros options Hin.
    destruct (getCredentials this "polarionApi") as [credentials|] eqn:Hc.
    + destruct (authHeader credentials) as [error|header] eqn:Ha.
      * rewrite (polarionApiRequest_unauthorized _ _ _ _ _ _ _ _ Hc Ha) in Hin. by left.
      * rewrite (polarionApiRequest_sends _ _ _ _ _ _ _ _ Hc Ha) in Hin.
        cbn in Hin. apply elem_of_app in Hin as [Hin|Hin]; [by left | right].
        apply list_elem_of_singleton in Hin as ->. by eexists.
    + rewrite polarionApiRequest_no_credentials in Hin by done. by left.
  - intros credentials Hc. split; [| split].
    + intros Hb. eexists. split.
      * rewrite (polarionApiRequest_sends _ _ _ _ _ _ _ _ Hc (authHeader_basic _ Hb)).
        reflexivity.
      * reflexivity.
    + intros Hp. eexists. split.
      * rewrite (polarionApiRequest_sends _ _ _ _ _ _ _ _ Hc (authHeader_pat _ Hp)).
        reflexivity.
      * reflexivity.
    + intros H1 H2.
      by apply polarionApiRequest_unauthorized with credentials, authHeader_other.
Qed.

End Helper.

(** ** Routing *)

Lemma id_operation_elem (operation : string) :
  operation ∈ ["get"; "update"; "delete"]
  ↔ operation = "get" ∨ operation = "update" ∨ operation = "delete".
Proof. rewrite !elem_of_cons, elem_of_nil. tauto. Qed.

Lemma resources_elem (resource : string) :
  resource ∈ resources
  ↔ resource = "workItems" ∨ resource = "documents" ∨ resource = "projects"
    ∨ resource ∈ simple_resources.
Proof. unfold resources. rewrite elem_of_app, !elem_of_cons, elem_of_nil. tauto. Qed.

Section RoutingTable.

Variable this : IExecuteFunctions.

(** The routing of a resource of the enumeration follows the table. *)
Lemma routing_known resource operation i qs :
  resource ∈ resources ->
  routing this resource operation i ("/" +:+ resource) qs
  = inr (documented_path this resource operation i,
         documented_filter this resource operation i qs).
Proof.
  intros Hres. apply resources_elem in Hres.
  unfold routing, documented_path, documented_filter, documented_identifier.
  destruct (decide (operation = "get" ∨ operation = "update" ∨ operation = "delete"))
    as [Hid | Hid].
  - rewrite (bool_decide_eq_true_2 (operation ∈ _)) by (by apply id_operation_elem).
    rewrite (bool_decide_eq_false_2 (_ ∧ _))
      by (intros [_ ->]; destruct Hid as [? | [? | ?]]; discriminate).
    repeat case_decide; try reflexivity.
    rewrite bool_decide_eq_true_2 by tauto. reflexivity.
  - rewrite (bool_decide_eq_false_2 (operation ∈ _))
      by (by rewrite id_operation_elem).
    destruct (decide (resource = "workItems")) as [-> | Hw].
    + destruct (decide (operation = "list")) as [-> | Hl].
      * by rewrite (bool_decide_eq_true_2 (_ ∧ _)).
      * by rewrite (bool_decide_eq_false_2 (_ ∧ _)) by tauto.
    + rewrite (bool_decide_eq_false_2 (_ ∧ _)) by tauto.
      repeat case_decide; try reflexivity.
      rewrite bool_decide_eq_true_2 by tauto. reflexivity.
Qed.

(** A tag outside the enumeration reaches the defensive branch. *)
Lemma routing_unknown resource operation i endpoint qs :
  resource ∉ resources ->
  routing this resource operation i endpoint qs = inl (routing_error this resource).
Proof.
  intros Hres. rewrite resources_elem in Hres. unfold routing.
  rewrite !decide_False by tauto.
  rewrite bool_decide_eq_false_2 by tauto. reflexivity.
Qed.

End RoutingTable.

Section Routing.

Variable JSON_parse : string -> string + JsValue.
Variable this : IExecuteFunctions.

(** The method and body of an operation that carries no payload. *)
Lemma payload_without_data operation i :
  operation ≠ "create" -> operation ≠ "update" ->
  payload JSON_parse this operation i = inr (documented_method operation, ∅).
Proof.
  intros Hc Hu. unfold payload, documented_method.
  rewrite decide_False by tauto.
  rewrite (decide_False (P := operation = "create")) by done.
  rewrite (decide_False (P := operation = "update")) by done.
  by case_decide.
Qed.

Lemma payload_parsed operation i parsed :
  operation = "create" ∨ operation = "update" ->
  JSON_parse (getNodeParameter this "data" i) = inr parsed ->
  payload JSON_parse this operation i
  = inr (documented_method operation, Object_assign ∅ parsed).
Proof.
  intros Hop Hp. unfold payload, documented_method.
  rewrite decide_True by done. rewrite Hp.
  destruct Hop as [-> | ->]; reflexivity.
Qed.

Lemma payload_rejected operation i msg :
  operation = "create" ∨ operation = "update" ->
  JSON_parse (getNodeParameter this "data" i) = inl msg ->
  payload JSON_parse this operation i = inl (mkError SyntaxError msg JUndefined).
Proof.
  intros Hop Hp. unfold payload. rewrite decide_True by done. by rewrite Hp.
Qed.

(** [resolve], once the payload step has succeeded. *)
Lemma resolve_after_payload resource operation i method body :
  payload JSON_parse this operation i = inr (method, body) ->
  resolve JSON_parse this resource operation i
  = match routing this resource operation i ("/" +:+ resource)
            (common_qs operation (getNodeParameter_options this i)) with
    | inl error => inl error
    | inr (endpoint, qs) =>
        inr {| spec_method := method; spec_endpoint := endpoint;
               spec_body := body; spec_qs := qs |}
    end.
Proof.
  intros Hp. unfold resolve. rewrite Hp. cbn.
  destruct (routing _ _ _ _ _ _) as [error | [endpoint qs]]; reflexivity.
Qed.

Lemma resolve_payload_error resource operation i error :
  payload JSON_parse this operation i = inl error ->
  resolve JSON_parse this resource operation i = inl error.
Proof. intros Hp. unfold resolve. by rewrite Hp. Qed.

(** C1: for each of the 13 resource tags and each of the 5 operations,
    [resolve] yields the documented method and endpoint: the path is
    [/{resource}], followed by [/{id}] for get, update and delete, with the
    identifier chosen by the resource; the method is GET, POST for create,
    PUT for update and DELETE for delete; the list of work items attaches the
    filter as the [query] parameter.  A tag outside the enumeration fails
    with the routing error.  Create and update resolve once their payload
    has been parsed, which is the step before the routing. *)
Theorem C1_dispatch_table (resource operation : string) (i : nat) :
  operation ∈ operations ->
  (resource ∈ resources ->
     (operation ≠ "create" -> operation ≠ "update" ->
        resolve JSON_parse this resource operation i
        = inr (documented_request this resource operation i ∅))
     ∧ (∀ parsed, operation = "create" ∨ operation = "update" ->
          JSON_parse (getNodeParameter this "data" i) = inr parsed ->
          resolve JSON_parse this resource operation i
          = inr (documented_request this resource operation i (Object_assign ∅ parsed))))
  ∧ (resource ∉ resources ->
     (operation ≠ "create" -> operation ≠ "update" ->
        resolve JSON_parse this resource operation i
        = inl (routing_error this resource))
     ∧ (∀ parsed, operation = "create" ∨ operation = "update" ->
          JSON_parse (getNodeParameter this "data" i) = inr parsed ->
          resolve JSON_parse this resource operation i
          = inl (routing_error this resource))).
Proof.
  intros _. split; intros Hres; split.
  - intros Hc Hu.
    rewrite (resolve_after_payload _ _ _ _ _ (payload_without_data _ i Hc Hu)).
    by rewrite routing_known.
  - intros parsed Hop Hp.
    rewrite (resolve_after_payload _ _ _ _ _ (payload_parsed _ _ _ Hop Hp)).
    by rewrite routing_known.
  - intros Hc Hu.
    rewrite (resolve_after_payload _ _ _ _ _ (payload_without_data _ i Hc Hu)).
    by rewrite routing_unknown.
  - intros parsed Hop Hp.
    rewrite (resolve_after_payload _ _ _ _ _ (payload_parsed _ _ _ Hop Hp)).
    by rewrite routing_unknown.
Qed.

End Routing.

(** ** Percent-encoding *)

Lemma list_ascii_of_string_app (s t : string) :
  list_ascii_of_string (s +:+ t) = list_ascii_of_string s ++ list_ascii_of_string t.
Proof.
  induction s as [| c s IH]; [done |].
  change (String c s +:+ t) with (String c (s +:+ t)). cbn. by rewrite IH.
Qed.

Lemma hex_digit_not_slash (n : N) : hex_digit n ≠ "/"%char.
Proof.
  unfold hex_digit. generalize (N.to_nat n). intros k.
  do 16 (destruct k as [| k]; [discriminate |]).
  cbn. by destruct k.
Qed.

Lemma uriUnescaped_not_slash (c : ascii) : uriUnescaped c = true -> c ≠ "/"%char.
Proof. intros H ->. discriminate H. Qed.

Lemma encodeURIComponent_cons (c : ascii) (s : string) :
  encodeURIComponent (String c s)
  = (if uriUnescaped c then String c EmptyString else percent_encode c)
    +:+ encodeURIComponent s.
Proof. reflexivity. Qed.

(** No path separator survives the encoding. *)
Lemma encodeURIComponent_no_slash (s : string) :
  "/"%char ∉ list_ascii_of_string (encodeURIComponent s).
Proof.
  induction s as [| c s IH].
  - apply not_elem_of_nil.
  - rewrite encodeURIComponent_cons, list_ascii_of_string_app, elem_of_app.
    intros [H | H]; [| done].
    destruct (uriUnescaped c) eqn:Hc; cbn in H.
    + apply list_elem_of_singleton in H. by apply (uriUnescaped_not_slash c).
    + rewrite !elem_of_cons, elem_of_nil in H.
      destruct H as [H | [H | [H | []]]]; [discriminate | |];
        by apply (hex_digit_not_slash _ (eq_sym H)).
Qed.

(** A string without reserved characters is left as it is. *)
Lemma encodeURIComponent_unescaped (s : string) :
  forallb uriUnescaped (list_ascii_of_string s) = true ->
  encodeURIComponent s = s.
Proof.
  induction s as [| c s IH]; cbn; [done |].
  intros [Hc Hs]%andb_true_iff. rewrite Hc. cbn. by rewrite IH.
Qed.

(** ** One dispatch *)

Section Dispatch.

Variable JSON_parse : string -> string + JsValue.
Variable this : IExecuteFunctions.

Lemma attempt_unresolved resource operation i sent error :
  resolve JSON_parse this resource operation i = inl error ->
  attempt JSON_parse this resource operation i sent = (sent, inl error).
Proof. intros H. unfold attempt, bind, lift. by rewrite H. Qed.

Lemma attempt_resolved resource operation i sent spec :
  resolve JSON_parse this resource operation i = inr spec ->
  attempt JSON_parse this resource operation i sent
  = match polarionApiRequest this (spec_method spec) (spec_endpoint spec)
            (spec_body spec) (spec_qs spec) None sent with
    | (sent', inl error) => (sent', inl error)
    | (sent', inr responseData) => (sent', standardize responseData)
    end.
Proof.
  intros H. unfold attempt, bind, lift. rewrite H.
  destruct (polarionApiRequest _ _ _ _ _ _ _) as [sent' [error | responseData]];
    reflexivity.
Qed.

(** The request that a resolved dispatch hands to the transport. *)
Lemma attempt_sends resource operation i sent spec credentials header :
  resolve JSON_parse this resource operation i = inr spec ->
  getCredentials this "polarionApi" = Some credentials ->
  authHeader credentials = inr header ->
  attempt JSON_parse this resource operation i sent
  = let options :=
      request_options credentials header (spec_method spec) (spec_endpoint spec)
        (spec_body spec) (spec_qs spec) None in
    (sent ++ [options],
     match helpers_request this sent options with
     | inl error => inl (request_failed this error)
     | inr responseData => standardize responseData
     end).
Proof.
  intros Hr Hc Ha. rewrite (attempt_resolved _ _ _ _ _ Hr).
  rewrite (polarionApiRequest_sends _ _ _ _ _ _ _ _ _ Hc Ha). cbn.
  destruct (helpers_request _ _ _); reflexivity.
Qed.

(** A dispatch adds at most one request to the log, and only after it has
    resolved; the request carries what was resolved. *)
Lemma attempt_log resource operation i sent :
  (attempt JSON_parse this resource operation i sent).1 = sent
  ∨ ∃ spec credentials header,
      resolve JSON_parse this resource operation i = inr spec
      ∧ (attempt JSON_parse this resource operation i sent).1
        = sent ++ [request_options credentials header (spec_method spec)
                     (spec_endpoint spec) (spec_body spec) (spec_qs spec) None].
Proof.
  destruct (resolve JSON_parse this resource operation i) as [error | spec] eqn:Hr.
  { left. by rewrite (attempt_unresolved _ _ _ _ _ Hr). }
  rewrite (attempt_resolved _ _ _ _ _ Hr).
  destruct (getCredentials this "polarionApi") as [credentials |] eqn:Hc.
  - destruct (authHeader credentials) as [error | header] eqn:Ha.
    + left. by rewrite (polarionApiRequest_unauthorized _ _ _ _ _ _ _ _ _ Hc Ha).
    + right. exists spec, credentials, header. split; [done |].
      rewrite (polarionApiRequest_sends _ _ _ _ _ _ _ _ _ Hc Ha). cbn.
      by destruct (helpers_request _ _ _).
  - left. by rewrite polarionApiRequest_no_credentials.
Qed.

(** The request that a dispatch has added is the resolved one. *)
Lemma attempt_request resource operation i sent options :
  (attempt JSON_parse this resource operation i sent).1 = sent ++ [options] ->
  ∃ spec, resolve JSON_parse this resource operation i = inr spec
    ∧ method options = spec_method spec ∧ url options = spec_endpoint spec
    ∧ body options = spec_body spec ∧ qs options = spec_qs spec.
Proof.
  intros H. destruct (attempt_log resource operation i sent)
    as [Hl | (spec & credentials & header & Hr & Hl)]; rewrite Hl in H.
  - exfalso. apply (f_equal length) in H. rewrite length_app in H. cbn in H. lia.
  - apply app_inv_head in H. injection H as <-. exists spec. by repeat split.
Qed.

(** The query parameters of a resolved dispatch are the common ones, with
    [query] added by the list of work items only. *)
Lemma routing_qs resource operation i endpoint qs0 endpoint' qs' :
  routing this resource operation i endpoint qs0 = inr (endpoint', qs') ->
  qs' = qs0 ∨ qs' = <["query" := JStr (getNodeParameter this "query" i)]> qs0.
Proof.
  unfold routing. intros H.
  repeat case_decide; try case_bool_decide; simplify_eq; auto.
Qed.

Lemma resolve_qs resource operation i spec (k : string) :
  resolve JSON_parse this resource operation i = inr spec ->
  k ≠ "query" ->
  spec_qs spec !! k = common_qs operation (getNodeParameter_options this i) !! k.
Proof.
  unfold resolve. intros H Hk.
  destruct (payload _ _ _ _) as [error | [method body]]; [discriminate |].
  cbn in H.
  destruct (routing _ _ _ _ _ _) as [error | [endpoint qs']] eqn:Hrt; [discriminate |].
  injection H as <-. cbn.
  destruct (routing_qs _ _ _ _ _ _ _ Hrt) as [-> | ->]; [done |].
  by rewrite lookup_insert_ne.
Qed.

(** The query string that leaves with the request of a dispatch. *)
Lemma outgoing_qs resource operation i sent options (k : string) :
  (attempt JSON_parse this resource operation i sent).1 = sent ++ [options] ->
  k ≠ "query" ->
  qs options !! k = common_qs operation (getNodeParameter_options this i) !! k.
Proof.
  intros H Hk. destruct (attempt_request _ _ _ _ _ H) as (spec & Hr & _ & _ & _ & ->).
  by apply (resolve_qs resource).
Qed.

(** With a supported credential, a resolved dispatch does send a request. *)
Lemma authorized_sends resource operation i sent spec :
  authorized this ->
  resolve JSON_parse this resource operation i = inr spec ->
  ∃ options, (attempt JSON_parse this resource operation i sent).1 = sent ++ [options]
    ∧ method options = spec_method spec ∧ url options = spec_endpoint spec
    ∧ body options = spec_body spec ∧ qs options = spec_qs spec.
Proof.
  intros (credentials & Hc & Hauth) Hr.
  assert (∃ header, authHeader credentials = inr header) as [header Ha].
  { destruct Hauth as [Hb | Hp]; eexists;
      [by apply authHeader_basic | by apply authHeader_pat]. }
  eexists. rewrite (attempt_sends _ _ _ _ _ _ _ Hr Hc Ha). cbn. by repeat split.
Qed.

End Dispatch.

(** ** Query parameters *)

Lemma common_qs_limit (options : IDataObject) :
  common_qs "list" options !! "limit" = Some (js_or (prop options "limit") (JNum 50)).
Proof.
  unfold common_qs. rewrite decide_True by done.
  rewrite lookup_insert_ne by done. by rewrite lookup_insert_eq.
Qed.

Lemma common_qs_skip (options : IDataObject) :
  common_qs "list" options !! "skip" = Some (js_or (prop options "skip") (JNum 0)).
Proof. unfold common_qs. rewrite decide_True by done. by rewrite lookup_insert_eq. Qed.

Lemma common_qs_not_list (operation : string) (options : IDataObject) :
  operation ≠ "list" ->
  common_qs operation options !! "limit" = None
  ∧ common_qs operation options !! "skip" = None.
Proof.
  intros H. unfold common_qs. rewrite decide_False by done.
  destruct (truthy (prop options "fields"));
    by rewrite ?lookup_insert_ne, !lookup_empty by done.
Qed.

Lemma common_qs_fields (operation : string) (options : IDataObject) :
  common_qs operation options !! "fields"
  = if truthy (prop options "fields") then Some (prop options "fields") else None.
Proof.
  unfold common_qs.
  destruct (decide (operation = "list")); rewrite ?lookup_insert_ne by done;
    destruct (truthy (prop options "fields"));
    by rewrite ?lookup_insert_eq, ?lookup_empty.
Qed.

Section Claims.

Variable JSON_parse : string -> string + JsValue.
Variable this : IExecuteFunctions.

(** A resource of the enumeration resolves as soon as the payload step has
    succeeded. *)
Lemma resolve_known resource operation i method body :
  resource ∈ resources ->
  payload JSON_parse this operation i = inr (method, body) ->
  resolve JSON_parse this resource operation i
  = inr {| spec_method := method;
           spec_endpoint := documented_path this resource operation i;
           spec_body := body;
           spec_qs :=
             documented_filter this resource operation i
               (common_qs operation (getNodeParameter_options this i)) |}.
Proof.
  intros Hres Hp. rewrite (resolve_after_payload _ _ _ _ _ _ _ Hp).
  by rewrite routing_known.
Qed.

(** The payload step succeeds unless a create or update carries a text that
    [JSON.parse] rejects. *)
Lemma payload_succeeds operation i :
  (operation = "create" ∨ operation = "update" ->
   ∃ parsed, JSON_parse (getNodeParameter this "data" i) = inr parsed) ->
  ∃ body, payload JSON_parse this operation i = inr (documented_method operation, body).
Proof.
  intros H. destruct (decide (operation = "create" ∨ operation = "update")) as [Hop | Hop].
  - destruct (H Hop) as [parsed Hp]. eexists. by apply payload_parsed.
  - eexists. apply payload_without_data; tauto.
Qed.

(** On get, update and delete, the identifier of a document that has a UTF-8
    form enters the path percent-encoded, so that the part after
    [/documents/] holds no [/]; the identifier of a work item, of a project
    and of each of the ten simple resources enters the path as it was
    supplied. *)
Lemma identifier_paths (resource operation : string) (i : nat) :
  resource ∈ resources ->
  operation ∈ ["get"; "update"; "delete"] ->
  (operation = "update" ->
   ∃ parsed, JSON_parse (getNodeParameter this "data" i) = inr parsed) ->
  ∃ spec, resolve JSON_parse this resource operation i = inr spec
    ∧ (resource = "documents" ->
         spec_endpoint spec
         = "/documents/" +:+ encodeURIComponent (getNodeParameter this "documentId" i)
         ∧ "/"%char ∉ list_ascii_of_string
                        (encodeURIComponent (getNodeParameter this "documentId" i)))
    ∧ (resource = "workItems" ->
         spec_endpoint spec = "/workItems/" +:+ getNodeParameter this "workItemId" i)
    ∧ (resource = "projects" ->
         spec_endpoint spec = "/projects/" +:+ getNodeParameter this "projectId" i)
    ∧ (resource ∈ simple_resources ->
         spec_endpoint spec
         = "/" +:+ resource +:+ "/" +:+ getNodeParameter this "resourceId" i).
Proof.
  intros Hres Hop Hdata.
  assert (∃ body, payload JSON_parse this operation i
                  = inr (documented_method operation, body)) as [body Hp].
  { apply payload_succeeds. intros [-> | Hu]; [| by apply Hdata].
    apply id_operation_elem in Hop. destruct Hop as [? | [? | ?]]; discriminate. }
  eexists. split; [by apply resolve_known |]. cbn.
  unfold documented_path, documented_identifier.
  rewrite bool_decide_eq_true_2 by done.
  split; [| split; [| split]].
  - intros ->. split; [reflexivity | apply encodeURIComponent_no_slash].
  - by intros ->.
  - by intros ->.
  - intros Hs.
    assert (resource ≠ "workItems" ∧ resource ≠ "documents" ∧ resource ≠ "projects")
      as (H1 & H2 & H3).
    { repeat split; intros ->; unfold simple_resources in Hs;
        rewrite !elem_of_cons, elem_of_nil in Hs;
        repeat (destruct Hs as [Hs | Hs]; [discriminate |]); done. }
    by rewrite !decide_False.
Qed.

(** The dispatch by code units is the dispatch of the model wherever the
    document identifier is not read, and wherever it has the UTF-8 form that
    the context holds. *)
Lemma resolve_units_other (documentId : nat -> list N) resource operation i :
  resource ≠ "documents" ->
  resolve_units JSON_parse this documentId resource operation i
  = resolve JSON_parse this resource operation i.
Proof.
  intros Hres. unfold resolve_units, resolve, routing_units, routing.
  by rewrite !(decide_False (P := resource = "documents")) by done.
Qed.

Lemma resolve_units_utf8 (documentId : nat -> list N) resource operation i :
  utf8 (documentId i) = Some (getNodeParameter this "documentId" i) ->
  resolve_units JSON_parse this documentId resource operation i
  = resolve JSON_parse this resource operation i.
Proof.
  intros Hform.
  unfold resolve_units, resolve, routing_units, routing, encodeURIComponent_units.
  by rewrite Hform.
Qed.

Lemma resolve_units_not_identified (documentId : nat -> list N) resource operation i :
  ¬ (operation = "get" ∨ operation = "update" ∨ operation = "delete") ->
  resolve_units JSON_parse this documentId resource operation i
  = resolve JSON_parse this resource operation i.
Proof.
  intros Hop. unfold resolve_units, resolve, routing_units, routing.
  by rewrite !(decide_False
                 (P := operation = "get" ∨ operation = "update" ∨ operation = "delete"))
    by done.
Qed.

Lemma resolve_units_payload_error (documentId : nat -> list N) resource operation i
    error :
  payload JSON_parse this operation i = inl error ->
  resolve_units JSON_parse this documentId resource operation i = inl error.
Proof. intros Hp. unfold resolve_units. by rewrite Hp. Qed.

(** The dispatch of get, update and delete on a document: the path with the
    encoded identifier, or the [URIError]. *)
Lemma resolve_units_documents (documentId : nat -> list N) operation i method body :
  operation ∈ ["get"; "update"; "delete"] ->
  payload JSON_parse this operation i = inr (method, body) ->
  resolve_units JSON_parse this documentId "documents" operation i
  = match utf8 (documentId i) with
    | Some text =>
        inr {| spec_method := method;
               spec_endpoint := "/documents/" +:+ encodeURIComponent text;
               spec_body := body;
               spec_qs := common_qs operation (getNodeParameter_options this i) |}
    | None => inl URI_malformed
    end.
Proof.
  intros Hop Hp. apply id_operation_elem in Hop.
  unfold resolve_units. rewrite Hp. cbn [result_bind]. unfold routing_units.
  rewrite decide_False, decide_True by done. rewrite decide_True by done.
  unfold encodeURIComponent_units. by destruct (utf8 (documentId i)).
Qed.

Lemma attempt_units_unresolved (documentId : nat -> list N) resource operation i
    sent error :
  resolve_units JSON_parse this documentId resource operation i = inl error ->
  attempt_units JSON_parse this documentId resource operation i sent
  = (sent, inl error).
Proof. intros H. unfold attempt_units, bind, lift. by rewrite H. Qed.

(** C5, amended: on get, update and delete, a document identifier that is a
    well-formed string enters the path percent-encoded: the path is
    [/documents/] followed by the encoding of its UTF-8 form, which holds no
    [/], and the dispatch is the one of the model of well-formed strings.
    An identifier in which a surrogate lacks its partner has no encoding:
    [encodeURIComponent] throws a [URIError], the dispatch fails and no
    request is made.  The identifier of a work item, of a project and of
    each of the ten simple resources enters the path as it was supplied. *)
Theorem C5_identifier_encoding (documentId : nat -> list N)
    (resource operation : string) (i : nat) (sent : list HttpRequest) :
  resource ∈ resources ->
  operation ∈ ["get"; "update"; "delete"] ->
  (operation = "update" ->
   ∃ parsed, JSON_parse (getNodeParameter this "data" i) = inr parsed) ->
  (resource = "documents" ->
     (∀ text, utf8 (documentId i) = Some text ->
        ∃ spec,
          resolve_units JSON_parse this documentId resource operation i = inr spec
          ∧ spec_endpoint spec = "/documents/" +:+ encodeURIComponent text
          ∧ ("/"%char ∉ list_ascii_of_string (encodeURIComponent text))
          ∧ (text = getNodeParameter this "documentId" i ->
             resolve JSON_parse this resource operation i = inr spec))
     ∧ (utf8 (documentId i) = None ->
        resolve_units JSON_parse this documentId resource operation i
        = inl URI_malformed
        ∧ attempt_units JSON_parse this documentId resource operation i sent
          = (sent, inl URI_malformed)))
  ∧ (resource ≠ "documents" ->
     ∃ spec,
       resolve_units JSON_parse this documentId resource operation i = inr spec
       ∧ resolve JSON_parse this resource operation i = inr spec
       ∧ (resource = "workItems" ->
            spec_endpoint spec = "/workItems/" +:+ getNodeParameter this "workItemId" i)
       ∧ (resource = "projects" ->
            spec_endpoint spec = "/projects/" +:+ getNodeParameter this "projectId" i)
       ∧ (resource ∈ simple_resources ->
            spec_endpoint spec
            = "/" +:+ resource +:+ "/" +:+ getNodeParameter this "resourceId" i)).
Proof.
  intros Hres Hop Hdata. split.
  - intros ->.
    assert (∃ body, payload JSON_parse this operation i
                    = inr (documented_method operation, body)) as [body Hp].
    { apply payload_succeeds. intros [-> | Hu]; [| by apply Hdata].
      apply id_operation_elem in Hop. destruct Hop as [? | [? | ?]]; discriminate. }
    pose proof (resolve_units_documents documentId operation i _ _ Hop Hp) as Hr.
    split.
    + intros text Hform. rewrite Hform in Hr. eexists. split; [exact Hr |].
      split; [reflexivity |]. split; [apply encodeURIComponent_no_slash |].
      intros ->. rewrite <- Hr. symmetry. by apply resolve_units_utf8.
    + intros Hform. rewrite Hform in Hr. split; [exact Hr |].
      by apply attempt_units_unresolved.
  - intros Hother.
    destruct (identifier_paths resource operation i Hres Hop Hdata)
      as (spec & Hr & _ & Hw & Hp & Hs).
    exists spec. rewrite resolve_units_other by done. done.
Qed.

(** C6: a list dispatch whose options name neither [limit] nor [skip] sends
    [limit = 50] and [skip = 0]; the request of any other operation has
    neither of the two parameters.  With a supported credential the list of a
    resource of the enumeration does send its request. *)
Theorem C6_pagination_defaults (resource operation : string) (i : nat)
    (sent : list HttpRequest) :
  let options := getNodeParameter_options this i in
  let log := (attempt JSON_parse this resource operation i sent).1 in
  (operation = "list" -> options !! "limit" = None -> options !! "skip" = None ->
     (∀ request, log = sent ++ [request] ->
        qs request !! "limit" = Some (JNum 50) ∧ qs request !! "skip" = Some (JNum 0))
     ∧ (resource ∈ resources -> authorized this ->
        ∃ request, log = sent ++ [request]))
  ∧ (operation ≠ "list" ->
     ∀ request, log = sent ++ [request] ->
       qs request !! "limit" = None ∧ qs request !! "skip" = None).
Proof.
  cbn zeta. split.
  - intros -> Hl Hs. split.
    + intros request Hlog.
      rewrite !(outgoing_qs _ _ _ _ _ _ _ _ Hlog) by done.
      rewrite common_qs_limit, common_qs_skip. unfold prop. by rewrite Hl, Hs.
    + intros Hres Hauth.
      assert (∃ body, payload JSON_parse this "list" i
                      = inr (documented_method "list", body)) as [body Hp].
      { apply payload_succeeds. intros [? | ?]; discriminate. }
      destruct (authorized_sends JSON_parse this resource "list" i sent _ Hauth
                  (resolve_known _ _ _ _ _ Hres Hp)) as (request & Hlog & _).
      by exists request.
  - intros Hop request Hlog.
    rewrite !(outgoing_qs _ _ _ _ _ _ _ _ Hlog) by done.
    by apply common_qs_not_list.
Qed.

(** C9: on a list dispatch a supplied [limit] that is falsy, such as 0, is
    replaced by 50, since the default is chosen by [||]; a supplied [skip] of
    0 is sent as 0, as is an absent one.  With a supported credential the
    list of a resource of the enumeration does send its request. *)
Theorem C9_falsy_limit (resource : string) (i : nat) (sent : list HttpRequest) :
  let options := getNodeParameter_options this i in
  let log := (attempt JSON_parse this resource "list" i sent).1 in
  (∀ request, log = sent ++ [request] ->
     (∀ limit, options !! "limit" = Some limit -> truthy limit = false ->
        qs request !! "limit" = Some (JNum 50))
     ∧ (options !! "limit" = Some (JNum 0) -> qs request !! "limit" = Some (JNum 50))
     ∧ (options !! "skip" = Some (JNum 0) -> qs request !! "skip" = Some (JNum 0))
     ∧ (options !! "skip" = None -> qs request !! "skip" = Some (JNum 0)))
  ∧ (resource ∈ resources -> authorized this -> ∃ request, log = sent ++ [request]).
Proof.
  cbn zeta. split.
  - intros request Hlog.
    rewrite !(outgoing_qs _ _ _ _ _ _ _ _ Hlog) by done.
    rewrite common_qs_limit, common_qs_skip. unfold prop, js_or.
    repeat split.
    + intros limit -> Hf. cbn. by rewrite Hf.
    + by intros ->.
    + by intros ->.
    + by intros ->.
  - intros Hres Hauth.
    assert (∃ body, payload JSON_parse this "list" i
                    = inr (documented_method "list", body)) as [body Hp].
    { apply payload_succeeds. intros [? | ?]; discriminate. }
    destruct (authorized_sends JSON_parse this resource "list" i sent _ Hauth
                (resolve_known _ _ _ _ _ Hres Hp)) as (request & Hlog & _).
    by exists request.
Qed.

(** C10: whatever the operation, a non-empty [fields] string in the options
    of the item leaves with the request as the [fields] parameter, and an
    empty one is not attached.  With a supported credential every operation
    on a resource of the enumeration sends its request once its payload, if
    it has one, has been parsed. *)
Theorem C10_fields_any_operation (resource operation : string) (i : nat)
    (sent : list HttpRequest) (fields : string) :
  let options := getNodeParameter_options this i in
  let log := (attempt JSON_parse this resource operation i sent).1 in
  options !! "fields" = Some (JStr fields) ->
  (∀ request, log = sent ++ [request] ->
     (fields ≠ EmptyString -> qs request !! "fields" = Some (JStr fields))
     ∧ (fields = EmptyString -> qs request !! "fields" = None))
  ∧ (resource ∈ resources -> authorized this ->
     (operation = "create" ∨ operation = "update" ->
      ∃ parsed, JSON_parse (getNodeParameter this "data" i) = inr parsed) ->
     ∃ request, log = sent ++ [request]).
Proof.
  cbn zeta. intros Hf. split.
  - intros request Hlog.
    rewrite !(outgoing_qs _ _ _ _ _ _ _ _ Hlog) by done.
    rewrite common_qs_fields. unfold prop. rewrite Hf. cbn. split.
    + intros Hne. by rewrite bool_decide_eq_false_2.
    + intros ->. reflexivity.
  - intros Hres Hauth Hdata.
    destruct (payload_succeeds operation i Hdata) as [body Hp].
    destruct (authorized_sends JSON_parse this resource operation i sent _ Hauth
                (resolve_known _ _ _ _ _ Hres Hp)) as (request & Hlog & _).
    by exists request.
Qed.

End Claims.

(** ** One iteration and the loop *)

(** ** [Object.assign] into an empty object *)

Lemma Object_assign_empty (source : JsValue) :
  Object_assign ∅ source = delete "__proto__" (own_enumerable source).
Proof.
  unfold Object_assign. cbn zeta. rewrite decide_False.
  - apply (right_id_L ∅ (∪)).
  - rewrite lookup_empty. by intros [v Hv].
Qed.

(** No index is written [__proto__]. *)
Lemma pretty_N_go_not_underscore (x : N) (s s' : string) :
  s ≠ String "_" s' -> pretty_N_go x s ≠ String "_" s'.
Proof.
  revert s. induction (N.lt_wf_0 x) as [x _ IH]; intros s Hs.
  assert (x = 0 ∨ 0 < x)%N as [-> | Hx] by lia.
  - by rewrite pretty_N_go_0.
  - rewrite pretty_N_go_step by done. apply IH.
    + by apply N.div_lt.
    + unfold pretty_N_char. by repeat case_match.
Qed.

Lemma pretty_index_not_proto (k : nat) : pretty k ≠ "__proto__".
Proof.
  unfold pretty, pretty_nat, pretty, pretty_N.
  case_decide; [discriminate |]. by apply pretty_N_go_not_underscore.
Qed.

Lemma indexed_from_lookup (xs : list JsValue) (n k : nat) :
  (list_to_map (imap (fun i x => (pretty (n + i), x)) xs) : IDataObject)
    !! pretty (n + k)
  = xs !! k.
Proof.
  revert n k. induction xs as [| x xs IH]; intros n k; [done |].
  cbn [imap list_to_map foldr]. cbn.
  destruct k as [| k].
  - rewrite Nat.add_0_r. by rewrite lookup_insert_eq.
  - rewrite lookup_insert_ne by (intros H; apply (inj pretty) in H; lia).
    change ((x :: xs) !! S k) with (xs !! k). rewrite <- (IH (S n) k).
    replace (n + S k) with (S n + k) by lia.
    f_equal. f_equal. apply imap_ext. intros j y _. cbn. f_equal. f_equal. lia.
Qed.

Lemma indexed_from_keys (xs : list JsValue) (n : nat) (key : string) :
  is_Some ((list_to_map (imap (fun i x => (pretty (n + i), x)) xs) : IDataObject)
             !! key) ->
  ∃ k, k < length xs ∧ key = pretty (n + k).
Proof.
  revert n. induction xs as [| x xs IH]; intros n.
  - cbn. rewrite lookup_empty. by intros [v Hv].
  - cbn [imap list_to_map foldr]. cbn.
    destruct (decide (key = pretty (n + 0))) as [-> | Hne].
    + intros _. exists 0. split; [cbn; lia | done].
    + rewrite lookup_insert_ne by done. intros Hsome.
      destruct (IH (S n)) as (k & Hk & ->).
      { erewrite imap_ext; [exact Hsome |]. intros j y _. cbn. f_equal. f_equal. lia. }
      exists (S k). split; [cbn; lia |]. f_equal. lia.
Qed.

(** The property [k] of an array or a string is its element [k], and there
    is no other property. *)
Lemma indexed_lookup (xs : list JsValue) (k : nat) : indexed xs !! pretty k = xs !! k.
Proof. apply (indexed_from_lookup xs 0 k). Qed.

Lemma indexed_keys (xs : list JsValue) (key : string) :
  is_Some (indexed xs !! key) -> ∃ k, k < length xs ∧ key = pretty k.
Proof. apply (indexed_from_keys xs 0 key). Qed.

Lemma Object_assign_indexed (xs : list JsValue) :
  delete "__proto__" (indexed xs) = indexed xs.
Proof.
  apply delete_id. apply eq_None_not_Some. intros Hsome.
  apply indexed_keys in Hsome as (k & _ & Hk).
  by apply (pretty_index_not_proto k).
Qed.

(** What [Object.assign] makes of each kind of value in an empty body. *)
Lemma Object_assign_shapes (parsed : JsValue) :
  (∀ m, parsed = JObj m -> Object_assign ∅ parsed = delete "__proto__" m)
  ∧ (∀ xs, parsed = JArr xs -> Object_assign ∅ parsed = indexed xs)
  ∧ (∀ s, parsed = JStr s ->
       Object_assign ∅ parsed = indexed (JStr <$> code_units s))
  ∧ (parsed = JNull ∨ parsed = JUndefined ∨ (∃ b, parsed = JBool b)
     ∨ (∃ x, parsed = JNum x) ->
     Object_assign ∅ parsed = ∅).
Proof.
  rewrite Object_assign_empty. repeat split.
  - by intros m ->.
  - intros xs ->. apply Object_assign_indexed.
  - intros s ->. apply Object_assign_indexed.
  - intros [-> | [-> | [[b ->] | [x ->]]]]; apply delete_empty.
Qed.

(** ** The code units of a string *)

(** One step of [code_units]. *)
Lemma code_units_cons (a : ascii) (s1 : string) :
  code_units (String a s1)
  = let x := N_of_ascii a in
      if (x <? 192)%N then String a EmptyString :: code_units s1
      else
        match s1 with
        | EmptyString => [String a EmptyString]
        | String b s2 =>
            if (x <? 224)%N then String a (String b EmptyString) :: code_units s2
            else
              match s2 with
              | EmptyString => [String a (String b EmptyString)]
              | String c s3 =>
                  if (x <? 240)%N then
                    String a (String b (String c EmptyString)) :: code_units s3
                  else
                    match s3 with
                    | EmptyString => [String a (String b (String c EmptyString))]
                    | String d s4 =>
                        let code_point :=
                          ((x mod 8) * 262144 + (N_of_ascii b mod 64) * 4096
                           + (N_of_ascii c mod 64) * 64 + N_of_ascii d mod 64)%N in
                        let v := (code_point - 65536)%N in
                        three_bytes (55296 + v / 1024)
                        :: three_bytes (56320 + v mod 1024)
                        :: code_units s4
                    end
              end
        end.
Proof. reflexivity. Qed.

(** Arithmetic of the bytes of UTF-8. *)
Lemma mod_offset (k c r : N) : (r < c)%N -> ((k * c + r) mod c = r)%N.
Proof.
  intros Hr. rewrite N.add_comm, N.Div0.mod_add. by apply N.mod_small.
Qed.

Lemma continuation_byte (x : N) :
  (N_of_ascii (ascii_of_N (128 + x mod 64)) mod 64 = x mod 64)%N.
Proof.
  assert (x mod 64 < 64)%N as Hm by (apply N.mod_lt; lia).
  rewrite N_ascii_embedding by lia.
  change 128%N with (2 * 64)%N. by apply mod_offset.
Qed.

Lemma utf8_digits (x : N) :
  (x = x / 262144 * 262144 + (x / 4096) mod 64 * 4096 + (x / 64) mod 64 * 64
       + x mod 64)%N.
Proof.
  pose proof (N.Div0.div_mod x 64) as H1.
  pose proof (N.Div0.div_mod (x / 64) 64) as H2.
  pose proof (N.Div0.div_mod (x / 4096) 64) as H3.
  rewrite N.Div0.div_div in H2. rewrite N.Div0.div_div in H3.
  change (64 * 64)%N with 4096%N in H2. change (4096 * 64)%N with 262144%N in H3.
  lia.
Qed.

(** The bytes of one code unit are read back as one code unit, and the four
    bytes of a surrogate pair as its two halves. *)
Lemma code_units_unit (u : N) (rest : string) :
  (u < 65536)%N ->
  code_units (utf8_of_code_point u +:+ rest) = utf8_of_code_point u :: code_units rest.
Proof.
  intros Hu. unfold utf8_of_code_point, three_bytes.
  assert (u mod 64 < 64)%N by (apply N.mod_lt; lia).
  assert ((u / 64) mod 64 < 64)%N by (apply N.mod_lt; lia).
  destruct (N.ltb_spec u 128) as [H1 | H1]; [| destruct (N.ltb_spec u 2048) as [H2 | H2];
    [| destruct (N.ltb_spec u 65536) as [H3 | H3]; [| lia]]].
  - change (String (ascii_of_N u) "" +:+ rest) with (String (ascii_of_N u) rest).
    rewrite code_units_cons. cbn zeta. rewrite N_ascii_embedding by lia.
    destruct (N.ltb_spec u 192); [done | lia].
  - change (String ?a (String ?b "") +:+ rest) with (String a (String b rest)).
    assert (u / 64 < 32)%N by (apply N.Div0.div_lt_upper_bound; lia).
    generalize dependent (u / 64)%N. intros q _ Hq.
    rewrite code_units_cons. cbn zeta. rewrite N_ascii_embedding by lia.
    destruct (N.ltb_spec (192 + q) 192); [lia |].
    destruct (N.ltb_spec (192 + q) 224); [done | lia].
  - change (String ?a (String ?b (String ?c "")) +:+ rest)
      with (String a (String b (String c rest))).
    assert (u / 4096 < 16)%N by (apply N.Div0.div_lt_upper_bound; lia).
    generalize dependent (u / 4096)%N. intros q Hq.
    rewrite code_units_cons. cbn zeta. rewrite N_ascii_embedding by lia.
    destruct (N.ltb_spec (224 + q) 192); [lia |].
    destruct (N.ltb_spec (224 + q) 224); [lia |].
    destruct (N.ltb_spec (224 + q) 240); [done | lia].
Qed.

Lemma code_units_pair (u v : N) (rest : string) :
  is_lead_surrogate u = true -> is_trail_surrogate v = true ->
  code_units (utf8_of_code_point (65536 + (u - 55296) * 1024 + (v - 56320)) +:+ rest)
  = utf8_of_code_point u :: utf8_of_code_point v :: code_units rest.
Proof.
  unfold is_lead_surrogate, is_trail_surrogate.
  intros [Hu1 Hu2]%andb_true_iff [Hv1 Hv2]%andb_true_iff.
  apply N.leb_le in Hu1, Hu2, Hv1, Hv2.
  assert (utf8_of_code_point u = three_bytes u) as ->.
  { unfold utf8_of_code_point.
    destruct (N.ltb_spec u 128); [lia |]. destruct (N.ltb_spec u 2048); [lia |].
    by destruct (N.ltb_spec u 65536); [| lia]. }
  assert (utf8_of_code_point v = three_bytes v) as ->.
  { unfold utf8_of_code_point.
    destruct (N.ltb_spec v 128); [lia |]. destruct (N.ltb_spec v 2048); [lia |].
    by destruct (N.ltb_spec v 65536); [| lia]. }
  assert (∃ cp, cp = (65536 + (u - 55296) * 1024 + (v - 56320))%N) as [cp Hcp]
    by by eexists.
  rewrite <- Hcp.
  assert (65536 <= cp < 1114112)%N as Hrange by lia.
  assert (u = 55296 + (cp - 65536) / 1024)%N as Hu.
  { rewrite <- (N.div_unique (cp - 65536) 1024 (u - 55296) (v - 56320)); lia. }
  assert (v = 56320 + (cp - 65536) mod 1024)%N as Hv.
  { rewrite <- (N.mod_unique (cp - 65536) 1024 (u - 55296) (v - 56320)); lia. }
  rewrite Hu, Hv. clear Hu Hv Hcp Hu1 Hu2 Hv1 Hv2.
  unfold utf8_of_code_point.
  destruct (N.ltb_spec cp 128); [lia |]. destruct (N.ltb_spec cp 2048); [lia |].
  destruct (N.ltb_spec cp 65536); [lia |].
  change (String ?a (String ?b (String ?c (String ?d ""))) +:+ rest)
    with (String a (String b (String c (String d rest)))).
  rewrite code_units_cons. cbn zeta. rewrite !continuation_byte.
  assert (cp / 262144 < 5)%N as Hh by (apply N.Div0.div_lt_upper_bound; lia).
  assert (∀ h, h < 5 -> 240 + h < 256 ∧ ¬ 240 + h < 240)%N as Hlead by lia.
  destruct (Hlead _ Hh) as [Hbyte Hfour].
  rewrite N_ascii_embedding by done.
  destruct (N.ltb_spec (240 + cp / 262144) 192); [lia |].
  destruct (N.ltb_spec (240 + cp / 262144) 224); [lia |].
  destruct (N.ltb_spec (240 + cp / 262144) 240); [done |].
  change 240%N with (30 * 8)%N. rewrite mod_offset by lia.
  by rewrite <- utf8_digits.
Qed.

(** The code units of a string are read back from its UTF-8 form, each as
    the string of its own. *)
Lemma utf8_code_units (units : list N) (s : string) :
  Forall (fun u => (u < 65536)%N) units ->
  utf8 units = Some s ->
  code_units s = utf8_of_code_point <$> units.
Proof.
  assert (∀ n units s, length units ≤ n ->
            Forall (fun u => (u < 65536)%N) units ->
            utf8 units = Some s ->
            code_units s = utf8_of_code_point <$> units) as Hlength.
  { clear units s. induction n as [| n IH]; intros units s Hn Hunits.
    - destruct units; [| cbn in Hn; lia]. by intros [= <-].
    - destruct units as [| u rest]; [by intros [= <-] |].
      apply Forall_cons in Hunits as [Hu Hrest]. cbn [utf8].
      destruct (is_lead_surrogate u) eqn:Hlead.
      + destruct rest as [| v rest]; [discriminate |].
        apply Forall_cons in Hrest as [Hv Hrest].
        destruct (is_trail_surrogate v) eqn:Htrail; [| discriminate].
        destruct (utf8 rest) as [s' |] eqn:Hs'; [| discriminate].
        intros [= <-]. rewrite code_units_pair by done.
        cbn [fmap list_fmap]. do 2 f_equal.
        apply IH; [cbn in Hn; lia | done | done].
      + destruct (is_trail_surrogate u); [discriminate |].
        destruct (utf8 rest) as [s' |] eqn:Hs'; [| discriminate].
        intros [= <-]. rewrite code_units_unit by done.
        cbn [fmap list_fmap]. f_equal.
        apply IH; [cbn in Hn; lia | done | done]. }
  by apply (Hlength (length units)).
Qed.

Section Loop.

Variable JSON_parse : string -> string + JsValue.
Variable this : IExecuteFunctions.

(** An iteration pushes the records of its attempt; a failure is recorded
    or rethrown, by the fail-tolerant flag. *)
Lemma iteration_attempt resource operation i returnData sent :
  iteration JSON_parse this resource operation i returnData sent
  = match attempt JSON_parse this resource operation i sent with
    | (sent', inr records) => (sent', inr (returnData ++ records))
    | (sent', inl error) =>
        (sent', if continueOnFail this
                then inr (returnData ++ [error_record error i])
                else inl error)
    end.
Proof.
  unfold iteration, try_catch, bind, ret, throw.
  destruct (attempt _ _ _ _ _ _) as [sent' [error | records]]; [| reflexivity].
  by destruct (continueOnFail this).
Qed.

Lemma standardize_data_array (m : IDataObject) (xs : list JsValue) :
  m !! "data" = Some (JArr xs) -> standardize (JObj m) = inr xs.
Proof. intros H. unfold standardize. cbn. unfold prop. by rewrite H. Qed.

Lemma standardize_array (xs : list JsValue) : standardize (JArr xs) = inr xs.
Proof. reflexivity. Qed.

Lemma standardize_single (r : JsValue) :
  (∀ m xs, r = JObj m -> m !! "data" ≠ Some (JArr xs)) ->
  isArray r = false -> r ≠ JNull -> r ≠ JUndefined ->
  standardize r = inr [r].
Proof.
  intros Hdata Harr Hnull Hundef. unfold standardize.
  destruct r as [| | b | x | s | xs | m]; try done.
  cbn. unfold prop.
  destruct (m !! "data") as [[| | b | x | s | xs | m'] |] eqn:Hm; cbn;
    try reflexivity; try (by destruct (truthy _)).
  - by rewrite andb_false_r.
  - by rewrite andb_false_r.
  - by rewrite andb_false_r.
  - by destruct (Hdata m xs eq_refl).
Qed.

Lemma standardize_nullish (r : JsValue) :
  r = JNull ∨ r = JUndefined ->
  ∃ error, standardize r = inl error ∧ error_class error = TypeError.
Proof. intros [-> | ->]; eexists; split; reflexivity. Qed.

(** C7, amended: for a decoded response other than [null] and [undefined],
    the iteration appends each element of the array held under [data] when
    there is one; otherwise each element of the response when it is itself
    an array; otherwise the response as one record.  Reading [data] from
    [null] or [undefined] raises a [TypeError], handled as any failure of the
    item. *)
Theorem C7_normalization (resource operation : string) (i : nat)
    (returnData : list JsValue) (sent : list HttpRequest) (spec : RequestSpec)
    (credentials : Credentials) (header : string) (responseData : JsValue) :
  let request :=
    request_options credentials header (spec_method spec) (spec_endpoint spec)
      (spec_body spec) (spec_qs spec) None in
  let next := iteration JSON_parse this resource operation i returnData sent in
  resolve JSON_parse this resource operation i = inr spec ->
  getCredentials this "polarionApi" = Some credentials ->
  authHeader credentials = inr header ->
  helpers_request this sent request = inr responseData ->
  (∀ m xs, responseData = JObj m -> m !! "data" = Some (JArr xs) ->
     next = (sent ++ [request], inr (returnData ++ xs)))
  ∧ (∀ xs, responseData = JArr xs ->
     next = (sent ++ [request], inr (returnData ++ xs)))
  ∧ ((∀ m xs, responseData = JObj m -> m !! "data" ≠ Some (JArr xs)) ->
     isArray responseData = false ->
     responseData ≠ JNull -> responseData ≠ JUndefined ->
     next = (sent ++ [request], inr (returnData ++ [responseData])))
  ∧ (responseData = JNull ∨ responseData = JUndefined ->
     ∃ error, error_class error = TypeError
       ∧ next = (sent ++ [request],
                 if continueOnFail this
                 then inr (returnData ++ [error_record error i])
                 else inl error)).
Proof.
  cbn zeta. intros Hr Hc Ha Hresp.
  rewrite iteration_attempt, (attempt_sends _ _ _ _ _ _ _ _ _ Hr Hc Ha).
  cbn zeta. rewrite Hresp. repeat split.
  - intros m xs -> Hm. by rewrite (standardize_data_array _ _ Hm).
  - by intros xs ->.
  - intros Hdata Harr Hnull Hundef. by rewrite standardize_single.
  - intros Hn. destruct (standardize_nullish _ Hn) as (error & -> & Hclass).
    by exists error.
Qed.

(** C8, amended: on create and update the payload text goes through
    [JSON.parse].  A rejected text fails the dispatch with the [SyntaxError]
    before any request; in fail-tolerant mode the iteration records
    [{error, itemIndex}] and the loop goes on with the next item, otherwise
    the error is rethrown.  An accepted text sets the method to POST for
    create and PUT for update, and the own enumerable properties of the
    parsed value are copied into the body, which starts empty.  A parsed
    object becomes the body, without the property [__proto__] if it has
    one; a parsed array gives the body that holds each element under its
    index and nothing else; a parsed string gives the body that holds each
    UTF-16 code unit under its index and nothing else; and a parsed [null],
    boolean or number leaves the body empty. *)
Theorem C8_payload (resource operation : string) (i : nat)
    (returnData : list JsValue) (sent : list HttpRequest) :
  operation = "create" ∨ operation = "update" ->
  (∀ msg, JSON_parse (getNodeParameter this "data" i) = inl msg ->
     let error := mkError SyntaxError msg JUndefined in
     attempt JSON_parse this resource operation i sent = (sent, inl error)
     ∧ (continueOnFail this = true ->
          iteration JSON_parse this resource operation i returnData sent
          = (sent, inr (returnData ++ [error_record error i]))
          ∧ ∀ n, for_items JSON_parse this resource operation (S n) i returnData sent
               = for_items JSON_parse this resource operation n (S i)
                   (returnData ++ [error_record error i]) sent)
     ∧ (continueOnFail this = false ->
          iteration JSON_parse this resource operation i returnData sent
          = (sent, inl error)))
  ∧ (∀ parsed, JSON_parse (getNodeParameter this "data" i) = inr parsed ->
     let body := Object_assign ∅ parsed in
     payload JSON_parse this operation i
     = inr (if decide (operation = "create") then POST else PUT, body)
     ∧ (resource ∈ resources ->
        ∃ spec, resolve JSON_parse this resource operation i = inr spec
          ∧ spec_method spec = (if decide (operation = "create") then POST else PUT)
          ∧ spec_body spec = body)
     ∧ (∀ m, parsed = JObj m -> body = delete "__proto__" m)
     ∧ (∀ xs, parsed = JArr xs ->
          (∀ k, body !! pretty k = xs !! k)
          ∧ ∀ key, is_Some (body !! key) -> ∃ k, k < length xs ∧ key = pretty k)
     ∧ (∀ s, parsed = JStr s ->
          (∀ k, body !! pretty k = JStr <$> code_units s !! k)
          ∧ ∀ key, is_Some (body !! key) ->
              ∃ k, k < length (code_units s) ∧ key = pretty k)
     ∧ (parsed = JNull ∨ (∃ b, parsed = JBool b) ∨ (∃ x, parsed = JNum x) ->
        body = ∅)).
Proof.
  intros Hop. split.
  - intros msg Hp error.
    assert (attempt JSON_parse this resource operation i sent = (sent, inl error))
      as Hatt.
    { apply attempt_unresolved, resolve_payload_error. by apply payload_rejected. }
    split; [done |]. split.
    + intros Hflag.
      assert (iteration JSON_parse this resource operation i returnData sent
              = (sent, inr (returnData ++ [error_record error i]))) as Hit.
      { by rewrite iteration_attempt, Hatt, Hflag. }
      split; [done |]. intros n. cbn [for_items]. unfold bind at 1. by rewrite Hit.
    + intros Hflag. by rewrite iteration_attempt, Hatt, Hflag.
  - intros parsed Hp body.
    assert (payload JSON_parse this operation i
            = inr (if decide (operation = "create") then POST else PUT, body))
      as Hpay.
    { rewrite (payload_parsed _ _ _ _ _ Hop Hp). unfold documented_method.
      destruct Hop as [-> | ->]; reflexivity. }
    destruct (Object_assign_shapes parsed) as (Hobj & Harr & Hstr & Hnone).
    split; [done |]. split; [| split; [| split; [| split]]].
    + intros Hres. eexists. split; [by apply resolve_known |]. by cbn.
    + exact Hobj.
    + intros xs Hxs. unfold body. rewrite (Harr xs Hxs).
      split; [apply indexed_lookup | apply indexed_keys].
    + intros s Hs. unfold body. rewrite (Hstr s Hs). split.
      * intros k. by rewrite indexed_lookup, list_lookup_fmap.
      * intros key Hkey. apply indexed_keys in Hkey as (k & Hk & ->).
        exists k. split; [| done]. by rewrite length_fmap in Hk.
    + intros Hprim. apply Hnone. tauto.
Qed.

End Loop.

(** ** Batches *)

Lemma recorded_from_ok (i : nat) (pre : list (list JsValue)) :
  recorded_from i (inr <$> pre) = concat pre.
Proof.
  revert i. induction pre as [| records pre IH]; intros i; [done |].
  cbn. by rewrite IH.
Qed.

Lemma recorded_from_one_failure (i : nat) (pre post : list (list JsValue))
    (error : JsError) :
  recorded_from i ((inr <$> pre) ++ inl error :: (inr <$> post))
  = concat pre ++ error_record error (i + length pre) :: concat post.
Proof.
  revert i. induction pre as [| records pre IH]; intros i; cbn.
  - by rewrite recorded_from_ok, Nat.add_0_r.
  - replace (i + S (length pre)) with (S i + length pre) by lia.
    by rewrite IH, <- app_assoc.
Qed.

Lemma recorded_from_errors (i : nat) (errors : list JsError) :
  recorded_from i (inl <$> errors)
  = imap (fun j error => error_record error (i + j)) errors.
Proof.
  revert i. induction errors as [| error errors IH]; intros i; [done |].
  cbn. rewrite IH, Nat.add_0_r. f_equal. apply imap_ext. intros j e _. cbn.
  f_equal. lia.
Qed.

Lemma sum_list_with_concat (xss : list (list JsValue)) :
  length (concat xss) = sum_list_with length xss.
Proof. induction xss as [| xs xss IH]; cbn; [done |]. by rewrite length_app, IH. Qed.

Lemma concat_singletons (xss : list (list JsValue)) :
  Forall (fun xs => length xs = 1) xss -> length (concat xss) = length xss.
Proof.
  induction 1 as [| xs xss Hxs _ IH]; cbn; [done |]. rewrite length_app, IH, Hxs. done.
Qed.

Lemma error_record_fields (error : JsError) (i : nat) :
  ∃ m, error_record error i = JObj m
    ∧ m !! "error" = Some (JStr (message error))
    ∧ m !! "itemIndex" = Some (JNum (number_of_nat i)).
Proof. eexists. split; [reflexivity |]. split; reflexivity. Qed.

Section Batch.

Variable JSON_parse : string -> string + JsValue.
Variable this : IExecuteFunctions.

Lemma attempts_length resource operation n i sent :
  length (attempts JSON_parse this resource operation n i sent).2 = n.
Proof.
  revert i sent. induction n as [| n IH]; intros i sent; [done |].
  cbn [attempts].
  destruct (attempt _ _ _ _ _ _) as [sent' outcome].
  specialize (IH (S i) sent').
  destruct (attempts _ _ _ _ _ _ _) as [sent'' outcomes]. cbn in *. by rewrite IH.
Qed.

Lemma attempts_S_fst resource operation n i sent :
  (attempts JSON_parse this resource operation (S n) i sent).1
  = (attempts JSON_parse this resource operation n (S i)
       (attempt JSON_parse this resource operation i sent).1).1.
Proof.
  cbn [attempts]. destruct (attempt _ _ _ _ _ _) as [sent' outcome].
  by destruct (attempts _ _ _ _ _ _ _).
Qed.

(** The fail-tolerant flag plays no part in the attempts themselves. *)
Lemma attempts_flag (b : bool) resource operation n i sent :
  attempts JSON_parse (with_continueOnFail b this) resource operation n i sent
  = attempts JSON_parse this resource operation n i sent.
Proof.
  revert i sent. induction n as [| n IH]; intros i sent; [done |].
  cbn [attempts].
  change (attempt JSON_parse (with_continueOnFail b this) resource operation i sent)
    with (attempt JSON_parse this resource operation i sent).
  destruct (attempt _ _ _ _ _ _) as [sent' outcome]. by rewrite IH.
Qed.

(** In fail-tolerant mode every item is attempted and leaves its records. *)
Lemma for_items_tolerant resource operation n i returnData sent :
  continueOnFail this = true ->
  for_items JSON_parse this resource operation n i returnData sent
  = let run := attempts JSON_parse this resource operation n i sent in
    (run.1, inr (returnData ++ recorded_from i run.2)).
Proof.
  intros Hflag. revert i returnData sent.
  induction n as [| n IH]; intros i returnData sent.
  - cbn. by rewrite app_nil_r.
  - cbn [for_items attempts]. unfold bind at 1.
    rewrite iteration_attempt, Hflag.
    destruct (attempt _ _ _ _ _ _) as [sent' [error | records]];
      rewrite IH; cbn zeta;
      destruct (attempts _ _ _ _ _ _ _) as [sent'' outcomes]; cbn;
      by rewrite <- app_assoc.
Qed.

(** Otherwise the loop stops at the first failure: the error is thrown, and
    the log is the one after the failing item. *)
Lemma for_items_strict resource operation pre error :
  continueOnFail this = false ->
  ∀ n i returnData sent log post,
    attempts JSON_parse this resource operation n i sent
    = (log, (inr <$> pre) ++ inl error :: post) ->
    for_items JSON_parse this resource operation n i returnData sent
    = ((attempts JSON_parse this resource operation (S (length pre)) i sent).1,
       inl error).
Proof.
  intros Hflag. induction pre as [| records pre IH];
    intros n i returnData sent log post Hrun;
    (destruct n as [| n]; [discriminate |]);
    cbn [length]; rewrite attempts_S_fst;
    cbn [for_items]; unfold bind at 1; rewrite iteration_attempt;
    cbn [attempts] in Hrun;
    destruct (attempt JSON_parse this resource operation i sent) as [sent' outcome];
    destruct (attempts JSON_parse this resource operation n (S i) sent')
      as [sent'' outcomes] eqn:Hrest;
    cbn in Hrun.
  - injection Hrun as _ -> _. by rewrite Hflag.
  - injection Hrun as _ -> ->. by apply IH with sent'' post.
Qed.

(** Under a configuration error no attempt gets as far as the transport:
    it fails while resolving, or in the helper before the request. *)
Lemma misconfigured_attempt resource operation i sent :
  misconfigured this ->
  ∃ error, attempt JSON_parse this resource operation i sent = (sent, inl error)
    ∧ (resolve JSON_parse this resource operation i = inl error
       ∨ configuration_error error).
Proof.
  intros Hbad.
  destruct (resolve JSON_parse this resource operation i) as [error | spec] eqn:Hr.
  { exists error. split; [by apply attempt_unresolved | by left]. }
  rewrite (attempt_resolved _ _ _ _ _ _ _ Hr).
  destruct Hbad as [Hnone | (credentials & Hc & Hb & Hp)].
  - exists credentials_not_set. rewrite polarionApiRequest_no_credentials by done.
    split; [done | right; by left].
  - exists invalid_authentication.
    rewrite (polarionApiRequest_unauthorized _ credentials invalid_authentication)
      by (done || by apply authHeader_other).
    split; [done | right; by right].
Qed.

Lemma misconfigured_attempts resource operation n i sent :
  misconfigured this ->
  ∃ errors, attempts JSON_parse this resource operation n i sent
            = (sent, inl <$> errors)
    ∧ length errors = n
    ∧ ∀ j error, errors !! j = Some error ->
        resolve JSON_parse this resource operation (i + j) = inl error
        ∨ configuration_error error.
Proof.
  intros Hbad. revert i. induction n as [| n IH]; intros i.
  - exists []. split; [done |]. split; [done |]. intros j error Hj. done.
  - destruct (misconfigured_attempt resource operation i sent Hbad)
      as (error & Hatt & Herr).
    destruct (IH (S i)) as (errors & Hrun & Hlen & Herrs).
    exists (error :: errors). cbn [attempts]. rewrite Hatt, Hrun.
    split; [done |]. split; [by cbn; rewrite Hlen |].
    intros [| j] e Hj; cbn in Hj.
    + injection Hj as <-. by rewrite Nat.add_0_r.
    + replace (i + S j) with (S i + j) by lia. by apply Herrs.
Qed.

End Batch.

(** Setting the flag leaves the items and the parameters as they were. *)
Ltac same_inputs b this :=
  change (getInputData (with_continueOnFail b this)) with (getInputData this);
  change (getNodeParameter (with_continueOnFail b this)) with (getNodeParameter this).

Section BatchClaims.

Variable JSON_parse : string -> string + JsValue.
Variable this : IExecuteFunctions.

(** [execute] wraps the final [returnData] with the helper of the host. *)
Lemma execute_returns sent :
  execute JSON_parse this sent
  = match execute_records JSON_parse this sent with
    | (sent', inr returnData) =>
        (sent', inr [helpers_returnJsonArray this returnData])
    | (sent', inl error) => (sent', inl error)
    end.
Proof.
  unfold execute, bind, ret.
  by destruct (execute_records _ _ _) as [sent' [error | returnData]].
Qed.

(** C2, amended: take a batch in which exactly one item fails, at index [k].
    In fail-tolerant mode the output holds the records of the items before,
    then one record for the failing item, with the message under [error] and
    [k] under [itemIndex], then the records of the items after; since a
    response may contribute any number of records, the output has one record
    more than the successful items contributed, which makes [N] records when
    each of them contributed exactly one.  With the mode off, the same batch
    throws the error of the failing item: there is no output at all, and no
    item after the failing one is attempted. *)
Theorem C2_one_failure_in_batch (pre post : list (list JsValue)) (error : JsError)
    (log : list HttpRequest) :
  let resource := getNodeParameter this "resource" 0 in
  let operation := getNodeParameter this "operation" 0 in
  let N := length (getInputData this) in
  let k := length pre in
  let output := concat pre ++ error_record error k :: concat post in
  attempts JSON_parse this resource operation N 0 []
  = (log, (inr <$> pre) ++ inl error :: (inr <$> post)) ->
  (execute_records JSON_parse (with_continueOnFail true this) [] = (log, inr output)
   ∧ (∃ m, output !! length (concat pre) = Some (JObj m)
        ∧ m !! "error" = Some (JStr (message error))
        ∧ m !! "itemIndex" = Some (JNum (number_of_nat k)))
   ∧ length output = S (sum_list_with length (pre ++ post))
   ∧ (Forall (fun records => length records = 1) (pre ++ post) -> length output = N))
  ∧ execute_records JSON_parse (with_continueOnFail false this) []
    = ((attempts JSON_parse this resource operation (S k) 0 []).1, inl error).
Proof.
  cbn zeta. intros Hrun. split; [split; [| split; [| split]] |].
  - unfold execute_records.
    rewrite (for_items_tolerant JSON_parse (with_continueOnFail true this)) by done.
    cbn zeta.
    same_inputs true this.
    rewrite attempts_flag, Hrun. cbn [fst snd].
    by rewrite recorded_from_one_failure.
  - destruct (error_record_fields error (length pre)) as (m & Hm & He & Hi).
    exists m. split; [| done].
    rewrite lookup_app_r by done. rewrite Nat.sub_diag. cbn. by rewrite Hm.
  - rewrite length_app. cbn. rewrite !sum_list_with_concat, sum_list_with_app. lia.
  - intros Hone. apply Forall_app in Hone as [Hpre Hpost].
    rewrite length_app. cbn. rewrite !concat_singletons by done.
    pose proof (attempts_length JSON_parse this (getNodeParameter this "resource" 0)
                  (getNodeParameter this "operation" 0)
                  (length (getInputData this)) 0 []) as Hlen.
    rewrite Hrun in Hlen. cbn in Hlen.
    rewrite length_app in Hlen. cbn in Hlen. rewrite !length_fmap in Hlen. lia.
  - unfold execute_records.
    same_inputs false this.
    rewrite (for_items_strict JSON_parse (with_continueOnFail false this) _ _
               pre error eq_refl _ _ _ _ log (inr <$> post))
      by (by rewrite attempts_flag).
    by rewrite attempts_flag.
Qed.

(** C3, amended: a configuration error (no stored credential, or an
    unsupported authentication method) lets no request out, and aborts the
    execution at the first item only when fail-tolerant mode is off.  In
    fail-tolerant mode it is caught like every other error: each item leaves
    a record [{error, itemIndex}] and the loop goes through all the items.
    The error of an item is the configuration error unless the item had
    already failed while resolving. *)
Theorem C3_configuration_errors :
  let resource := getNodeParameter this "resource" 0 in
  let operation := getNodeParameter this "operation" 0 in
  let N := length (getInputData this) in
  misconfigured this ->
  (∃ errors, length errors = N
     ∧ (∀ i error, errors !! i = Some error ->
          resolve JSON_parse this resource operation i = inl error
          ∨ configuration_error error)
     ∧ execute_records JSON_parse (with_continueOnFail true this) []
       = ([], inr (imap (fun i error => error_record error i) errors)))
  ∧ (N ≠ 0 ->
     ∃ error, (resolve JSON_parse this resource operation 0 = inl error
               ∨ configuration_error error)
       ∧ execute_records JSON_parse (with_continueOnFail false this) []
         = ([], inl error)).
Proof.
  cbn zeta. intros Hbad.
  destruct (misconfigured_attempts JSON_parse this
              (getNodeParameter this "resource" 0)
              (getNodeParameter this "operation" 0)
              (length (getInputData this)) 0 [] Hbad)
    as (errors & Hrun & Hlen & Herrs).
  split.
  - exists errors. split; [done |]. split; [done |].
    unfold execute_records.
    rewrite (for_items_tolerant JSON_parse (with_continueOnFail true this)) by done.
    cbn zeta.
    same_inputs true this.
    rewrite attempts_flag, Hrun. cbn [fst snd]. by rewrite recorded_from_errors.
  - intros HN. destruct errors as [| error errors]; [done |].
    exists error. split; [by apply (Herrs 0) |].
    unfold execute_records.
    same_inputs false this.
    rewrite (for_items_strict JSON_parse (with_continueOnFail false this) _ _
               [] error eq_refl _ _ _ _ [] (inl <$> errors))
      by (by rewrite attempts_flag).
    rewrite attempts_flag. cbn [length attempts].
    destruct (misconfigured_attempt JSON_parse this
                (getNodeParameter this "resource" 0)
                (getNodeParameter this "operation" 0) 0 [] Hbad)
      as (error' & -> & _).
    reflexivity.
Qed.

End BatchClaims.

(** ** The theorems at sample inputs *)

(** C1 at [get] on a document. *)
Lemma C1_dispatch_table_witness :
  "get" ∈ operations ∧ "documents" ∈ resources
  ∧ resolve sample_JSON_parse get_document "documents" "get" 0
    = inr {| spec_method := GET;
             spec_endpoint := "/documents/MyProject%2FSpecification";
             spec_body := ∅;
             spec_qs := ∅ |}.
Proof.
  assert ("get" ∈ operations) as Hop by compute_done.
  assert ("documents" ∈ resources) as Hres by compute_done.
  split; [exact Hop |]. split; [exact Hres |].
  destruct (C1_dispatch_table sample_JSON_parse get_document "documents" "get" 0 Hop)
    as [Hknown _].
  destruct (Hknown Hres) as [H _].
  exact (H ltac:(discriminate) ltac:(discriminate)).
Defined.

(** C4 at basic authentication. *)
Lemma C4_authorization_header_witness :
  ∃ options,
    (polarionApiRequest list_workItems GET "/workItems" ∅ ∅ None []).1
    = [] ++ [options]
    ∧ headers options !! "Authorization" = Some "Basic dXNlcjpwYXNz".
Proof.
  destruct (C4_authorization_header list_workItems GET "/workItems" ∅ ∅ None [])
    as [_ H].
  destruct (H (sample_credentials "basic") eq_refl) as [Hbasic _].
  exact (Hbasic eq_refl).
Defined.

(** C5 at [update] on the document whose identifier is [A/é]. *)
Lemma C5_identifier_encoding_witness :
  ∃ spec,
    resolve_units sample_JSON_parse update_document (fun _ => [65; 47; 233]%N)
      "documents" "update" 0 = inr spec
    ∧ spec_endpoint spec = "/documents/A%2F%C3%A9".
Proof.
  destruct (C5_identifier_encoding sample_JSON_parse update_document
              (fun _ => [65; 47; 233]%N) "documents" "update" 0 [])
    as [Hdocuments _].
  - compute_done.
  - compute_done.
  - intros _. exists (JObj ∅). reflexivity.
  - destruct (proj1 (Hdocuments eq_refl) _ eq_refl) as (spec & Hr & Hpath & _).
    exists spec. split; [exact Hr |]. exact Hpath.
Defined.

(** C6 at a list of work items without options. *)
Lemma C6_pagination_defaults_witness :
  ∃ request,
    (attempt sample_JSON_parse list_workItems "workItems" "list" 0 []).1
    = [] ++ [request]
    ∧ qs request !! "limit" = Some (JNum 50) ∧ qs request !! "skip" = Some (JNum 0).
Proof.
  destruct (C6_pagination_defaults sample_JSON_parse list_workItems
              "workItems" "list" 0 []) as [Hlist _].
  destruct (Hlist eq_refl eq_refl eq_refl) as [Hqs Hsent].
  destruct Hsent as [request Hlog].
  - compute_done.
  - exists (sample_credentials "basic"). split; [reflexivity | by left].
  - exists request. split; [exact Hlog |]. exact (Hqs request Hlog).
Defined.

(** C9 at a list of work items with [limit] and [skip] both 0. *)
Lemma C9_falsy_limit_witness :
  ∃ request,
    (attempt sample_JSON_parse list_workItems_zero "workItems" "list" 0 []).1
    = [] ++ [request]
    ∧ qs request !! "limit" = Some (JNum 50) ∧ qs request !! "skip" = Some (JNum 0).
Proof.
  destruct (C9_falsy_limit sample_JSON_parse list_workItems_zero "workItems" 0 [])
    as [Hqs Hsent].
  destruct Hsent as [request Hlog].
  - compute_done.
  - exists (sample_credentials "basic"). split; [reflexivity | by left].
  - exists request. split; [exact Hlog |].
    destruct (Hqs request Hlog) as (Hfalsy & _ & Hskip & _).
    split; [exact (Hfalsy (JNum 0) eq_refl eq_refl) | exact (Hskip eq_refl)].
Defined.

(** C10 at [delete] on a project with a [fields] option. *)
Lemma C10_fields_any_operation_witness :
  ∃ request,
    (attempt sample_JSON_parse delete_project_fields "projects" "delete" 0 []).1
    = [] ++ [request]
    ∧ method request = DELETE
    ∧ qs request !! "fields" = Some (JStr "id,title").
Proof.
  destruct (C10_fields_any_operation sample_JSON_parse delete_project_fields
              "projects" "delete" 0 [] "id,title" eq_refl) as [Hqs Hsent].
  destruct Hsent as [request Hlog].
  - compute_done.
  - exists (sample_credentials "pat"). split; [reflexivity | by right].
  - intros [? | ?]; discriminate.
  - exists request. split; [exact Hlog |]. split.
    + cbn in Hlog. injection Hlog as <-. reflexivity.
    + exact (proj1 (Hqs request Hlog) ltac:(discriminate)).
Defined.

(** C7 at a response that wraps two work items in [data]. *)
Lemma C7_normalization_witness :
  ∃ request,
    iteration sample_JSON_parse list_workItems_wrapped "workItems" "list" 0 [] []
    = ([] ++ [request], inr ([] ++ [JStr "WI-1"; JStr "WI-2"])).
Proof.
  pose proof (C7_normalization sample_JSON_parse list_workItems_wrapped
                "workItems" "list" 0 [] []
                (documented_request list_workItems_wrapped "workItems" "list" 0 ∅)
                (sample_credentials "basic") "Basic dXNlcjpwYXNz"
                (JObj {[ "data" := JArr [JStr "WI-1"; JStr "WI-2"] ]})
                eq_refl eq_refl eq_refl eq_refl) as [Hdata _].
  eexists. exact (Hdata _ _ eq_refl eq_refl).
Defined.

(** C8 at a create whose payload text is empty, in fail-tolerant mode. *)
Lemma C8_payload_witness :
  iteration sample_JSON_parse create_empty_text "workItems" "create" 0 [] []
  = ([], inr ([] ++ [error_record
                       (mkError SyntaxError "Unexpected end of JSON input" JUndefined)
                       0])).
Proof.
  destruct (C8_payload sample_JSON_parse create_empty_text "workItems" "create" 0 [] []
              (or_introl eq_refl)) as [Hrejected _].
  destruct (Hrejected "Unexpected end of JSON input" eq_refl) as (_ & Htolerant & _).
  exact (proj1 (Htolerant eq_refl)).
Defined.

(** C2 at a batch of two lists of work items, the second of which fails. *)
Lemma C2_one_failure_in_batch_witness :
  ∃ log,
    execute_records sample_JSON_parse (with_continueOnFail true batch_second_fails) []
    = (log, inr ([JStr "WI-1"; JStr "WI-2"] ++ [error_record socket_hang_up 1]))
    ∧ (execute_records sample_JSON_parse
         (with_continueOnFail false batch_second_fails) []).2
      = inl socket_hang_up.
Proof.
  eexists.
  destruct (C2_one_failure_in_batch sample_JSON_parse batch_second_fails
              [[JStr "WI-1"; JStr "WI-2"]] [] socket_hang_up _ eq_refl)
    as [[Htolerant _] Hstrict].
  split; [exact Htolerant |]. by rewrite Hstrict.
Defined.

(** C3 at a batch of two items without a stored credential. *)
Lemma C3_configuration_errors_witness :
  ∃ error,
    execute_records sample_JSON_parse
      (with_continueOnFail false batch_no_credential) []
    = ([], inl error).
Proof.
  destruct (C3_configuration_errors sample_JSON_parse batch_no_credential
              (or_introl eq_refl)) as [_ Hstrict].
  destruct (Hstrict ltac:(discriminate)) as (error & _ & Hrun).
  exists error. exact Hrun.
Defined.

(** ** Where the claims as first stated fail *)

(** C2 as stated: two items, exactly one of which fails, in fail-tolerant
    mode; the list that succeeds contributes two records, so that the output
    has three records and not two. *)
Lemma C2_three_records_for_two_items :
  length (getInputData batch_second_fails) = 2
  ∧ continueOnFail batch_second_fails = true
  ∧ (attempts sample_JSON_parse batch_second_fails "workItems" "list" 2 0 []).2
    = [inr [JStr "WI-1"; JStr "WI-2"]; inl socket_hang_up]
  ∧ (execute_records sample_JSON_parse batch_second_fails []).2
    = inr [JStr "WI-1"; JStr "WI-2"; error_record socket_hang_up 1]
  ∧ ¬ (∃ output,
         (execute_records sample_JSON_parse batch_second_fails []).2 = inr output
         ∧ length output = length (getInputData batch_second_fails)).
Proof.
  assert ((execute_records sample_JSON_parse batch_second_fails []).2
          = inr [JStr "WI-1"; JStr "WI-2"; error_record socket_hang_up 1]) as Hrun
    by (vm_compute; reflexivity).
  repeat split; try reflexivity; try exact Hrun.
  intros (output & Hout & Hlen). rewrite Hrun in Hout. injection Hout as <-.
  discriminate Hlen.
Qed.

(** C3 as stated: without a stored credential, and with an unsupported
    authentication method, fail-tolerant mode records the configuration
    error for the first item and goes on to the second. *)
Lemma C3_configuration_error_recorded :
  misconfigured batch_no_credential
  ∧ misconfigured batch_unsupported_authentication
  ∧ continueOnFail batch_no_credential = true
  ∧ continueOnFail batch_unsupported_authentication = true
  ∧ execute_records sample_JSON_parse batch_no_credential []
    = ([], inr [error_record credentials_not_set 0;
                error_record credentials_not_set 1])
  ∧ execute_records sample_JSON_parse batch_unsupported_authentication []
    = ([], inr [error_record invalid_authentication 0;
                error_record invalid_authentication 1]).
Proof.
  split; [by left |]. split.
  - right. exists (sample_credentials "oauth2"). by repeat split.
  - repeat split; vm_compute; reflexivity.
Qed.

(** C7 as stated: the response [null] has no [data] array and is not an
    array, yet it is not appended as one record: reading [data] throws. *)
Lemma C7_null_response_throws :
  isArray JNull = false
  ∧ standardize JNull = inl (cannot_read_data "null")
  ∧ standardize JNull ≠ inr [JNull]
  ∧ execute_records sample_JSON_parse get_null_response []
    = ([request_options (sample_credentials "basic") "Basic dXNlcjpwYXNz" GET
          "/workItems/MyProject-123" ∅ ∅ None],
       inl (cannot_read_data "null")).
Proof. repeat split; try reflexivity. discriminate. Qed.

(** C5 as stated: the identifier that is one lead surrogate is supplied to
    [get] on a document, but there is no resolved path for it to appear in:
    [encodeURIComponent] throws and the item makes no request. *)
Lemma C5_unpaired_surrogate :
  let documentId := fun _ : nat => [55296%N] in
  (∀ spec, resolve_units sample_JSON_parse get_document documentId "documents" "get" 0
           ≠ inr spec)
  ∧ attempt_units sample_JSON_parse get_document documentId "documents" "get" 0 []
    = ([], inl URI_malformed).
Proof. split; [intros spec; discriminate | reflexivity]. Qed.

(** C8 as stated: the text [[1]] is valid JSON and parses to an array, but
    the body of the create request is the object that holds the element
    under the key [0], not the parsed value. *)
Lemma C8_array_payload :
  sample_JSON_parse (getNodeParameter create_array_payload "data" 0)
  = inr (JArr [JNum 1])
  ∧ ∃ spec,
      resolve sample_JSON_parse create_array_payload "workItems" "create" 0 = inr spec
      ∧ spec_method spec = POST
      ∧ spec_body spec = {[ "0" := JNum 1 ]}
      ∧ JObj (spec_body spec) ≠ JArr [JNum 1].
Proof.
  split; [reflexivity |].
  eexists. split; [reflexivity |]. cbn. repeat split. discriminate.
Qed.

(** * Further properties of the code *)

(** ** The two encodings lose nothing *)

Local Ltac Zify.zify_post_hook ::= Z.to_euclidean_division_equations.



Lemma N_of_ascii_bound (a : ascii) : (N_of_ascii a < 256)%N.
Proof. apply N_ascii_bounded. Qed.




Lemma string_app_cons (c : ascii) (s t : string) :
  String c s +:+ t = String c (s +:+ t).
Proof. reflexivity. Qed.

Lemma string_app_inj_l (s x y : string) : s +:+ x = s +:+ y -> x = y.
Proof.
  induction s as [| c s IH]; [done |].
  rewrite !string_app_cons. intros H. injection H as H. by apply IH.
Qed.

Lemma string_app_assoc (s t u : string) : (s +:+ t) +:+ u = s +:+ (t +:+ u).
Proof.
  induction s as [| c s IH]; [done |]. rewrite !string_app_cons. by rewrite IH.
Qed.

Lemma hex_index_digit (n : N) :
  (n < 16)%N ->
  N.of_nat (index_of (hex_digit n) (list_ascii_of_string "0123456789ABCDEF")) = n.
Proof.
  intros Hn. rewrite <- (N2Nat.id n) at 2.
  assert (N.to_nat n < 16) as Hk by lia.
  unfold hex_digit. generalize dependent (N.to_nat n).
  intros k Hk. do 16 (destruct k as [| k]; [reflexivity |]). lia.
Qed.

Lemma hex_digit_inj (n m : N) :
  (n < 16)%N -> (m < 16)%N -> hex_digit n = hex_digit m -> n = m.
Proof.
  intros Hn Hm H. rewrite <- (hex_index_digit n Hn), <- (hex_index_digit m Hm).
  by rewrite H.
Qed.

Lemma percent_encode_inj (c d : ascii) : percent_encode c = percent_encode d -> c = d.
Proof.
  unfold percent_encode. intros H. injection H as H1 H2.
  pose proof (N_of_ascii_bound c). pose proof (N_of_ascii_bound d).
  apply hex_digit_inj in H1; [| lia | lia]. apply hex_digit_inj in H2; [| lia | lia].
  rewrite <- (ascii_N_embedding c), <- (ascii_N_embedding d). f_equal. lia.
Qed.

(** The encoding of one character, and what follows it. *)
Lemma encodeURIComponent_head (c : ascii) (s : string) :
  encodeURIComponent (String c s)
  = if uriUnescaped c then String c (encodeURIComponent s)
    else String "%" (String (hex_digit (N_of_ascii c / 16))
                       (String (hex_digit (N_of_ascii c mod 16))
                          (encodeURIComponent s))).
Proof. rewrite encodeURIComponent_cons. by destruct (uriUnescaped c). Qed.

Lemma encodeURIComponent_inj (s t : string) :
  encodeURIComponent s = encodeURIComponent t -> s = t.
Proof.
  revert t. induction s as [| c s IH]; intros [| d t].
  - done.
  - rewrite encodeURIComponent_head. by destruct (uriUnescaped d).
  - rewrite encodeURIComponent_head. by destruct (uriUnescaped c).
  - rewrite !encodeURIComponent_head.
    destruct (uriUnescaped c) eqn:Hc, (uriUnescaped d) eqn:Hd; intros H.
    + injection H as -> H. f_equal. by apply IH.
    + injection H as -> _. discriminate Hc.
    + injection H as <- _. discriminate Hd.
    + injection H as H1 H2 H. f_equal; [| by apply IH].
      apply percent_encode_inj. unfold percent_encode. by rewrite H1, H2.
Qed.

Lemma encodeURIComponent_length (s : string) :
  String.length (encodeURIComponent s) = String.length s + 2 * escaped s.
Proof.
  induction s as [| c s IH]; [done |].
  rewrite encodeURIComponent_head. destruct (uriUnescaped c) eqn:Hc; cbn [String.length escaped];
    rewrite IH, ?Hc; lia.
Qed.

Lemma escaped_none (s : string) :
  escaped s = 0 ↔ forallb uriUnescaped (list_ascii_of_string s) = true.
Proof.
  induction s as [| c s IH]; cbn; [done |].
  destruct (uriUnescaped c); cbn; [done |]. split; [lia | discriminate].
Qed.

Lemma escaped_le_length (s : string) : escaped s ≤ String.length s.
Proof. induction s as [| c s IH]; cbn; [done |]. destruct (uriUnescaped c); lia. Qed.


(** X2: basic authentication joins user name and password with a colon and
    nothing marks where the user name ends: moving the text after a colon of
    the user name to the front of the password leaves the header the same. *)
Theorem X2_colon_in_username (c1 c2 : Credentials) (user middle secret : string) :
  authentication c1 = "basic" -> authentication c2 = "basic" ->
  username c1 = user +:+ ":" +:+ middle -> password c1 = secret ->
  username c2 = user -> password c2 = middle +:+ ":" +:+ secret ->
  authHeader c1 = authHeader c2.
Proof.
  intros H1 H2 Hu1 Hp1 Hu2 Hp2.
  rewrite (authHeader_basic _ H1), (authHeader_basic _ H2), Hu1, Hp1, Hu2, Hp2.
  by rewrite !string_app_assoc.
Qed.

(** [encodeURIComponent] adds two characters for each escaped one, and is
    the text itself exactly when nothing is escaped. *)
Lemma encodeURIComponent_shape (s : string) :
  String.length (encodeURIComponent s) = String.length s + 2 * escaped s
  ∧ escaped s ≤ String.length s
  ∧ (encodeURIComponent s = s ↔ forallb uriUnescaped (list_ascii_of_string s) = true).
Proof.
  pose proof (encodeURIComponent_length s) as Hlen.
  split; [done |]. split; [apply escaped_le_length |].
  split.
  - intros H. apply escaped_none. rewrite H in Hlen. lia.
  - apply encodeURIComponent_unescaped.
Qed.

(** ** The request helper, case by case *)

Lemma authorized_or_misconfigured (this : IExecuteFunctions) :
  authorized this ∨ misconfigured this.
Proof.
  unfold authorized, misconfigured.
  destruct (getCredentials this "polarionApi") as [c |]; [| by right; left].
  destruct (decide (authentication c = "basic")); [left; exists c; tauto |].
  destruct (decide (authentication c = "pat")); [left; exists c; tauto |].
  right. right. exists c. tauto.
Qed.

Lemma helper_sends_when_authorized (this : IExecuteFunctions) method resource body qs uri sent :
  authorized this ->
  ∃ credentials header,
    getCredentials this "polarionApi" = Some credentials
    ∧ authHeader credentials = inr header
    ∧ (polarionApiRequest this method resource body qs uri sent).1
      = sent ++ [request_options credentials header method resource body qs uri].
Proof.
  intros (c & Hc & Hauth).
  assert (∃ header, authHeader c = inr header) as [header Ha].
  { destruct Hauth; eexists; [by apply authHeader_basic | by apply authHeader_pat]. }
  exists c, header. split; [done |]. split; [done |].
  by rewrite (polarionApiRequest_sends _ _ _ _ _ _ _ _ _ Hc Ha).
Qed.

Lemma helper_silent_when_misconfigured (this : IExecuteFunctions) method resource body qs uri sent :
  misconfigured this ->
  (polarionApiRequest this method resource body qs uri sent).1 = sent
  ∧ ∃ error, (polarionApiRequest this method resource body qs uri sent).2 = inl error
      ∧ configuration_error error.
Proof.
  intros [Hnone | (c & Hc & Hb & Hp)].
  - rewrite polarionApiRequest_no_credentials by done.
    split; [done |]. exists credentials_not_set. split; [done | by left].
  - rewrite (polarionApiRequest_unauthorized _ c invalid_authentication)
      by (done || by apply authHeader_other).
    split; [done |]. exists invalid_authentication. split; [done | by right].
Qed.

(** X4: the helper hands a request to the transport exactly when a credential
    is stored and names basic or token authentication; it is then the only
    request of the call.  In every other case the call raises a
    configuration error and the log of requests is left as it was. *)
Theorem X4_request_iff_authorized (this : IExecuteFunctions) (method : Method)
    (resource : string) (body qs : IDataObject) (uri : option string)
    (sent : list HttpRequest) :
  let run := polarionApiRequest this method resource body qs uri sent in
  (authorized this ->
     ∃ credentials header,
       getCredentials this "polarionApi" = Some credentials
       ∧ authHeader credentials = inr header
       ∧ run.1 = sent ++ [request_options credentials header method resource
                            body qs uri])
  ∧ (misconfigured this ->
     run.1 = sent ∧ ∃ error, run.2 = inl error ∧ configuration_error error)
  ∧ (authorized this ∨ misconfigured this).
Proof.
  cbn zeta. split; [apply helper_sends_when_authorized |].
  split; [apply helper_silent_when_misconfigured | apply authorized_or_misconfigured].
Qed.

(** X5: once the request is out, the answer of the transport comes back as
    it is, with no second request.  A failure of the transport is not
    retried: the helper throws the [NodeOperationError] that the constructor
    builds from the text [Polarion API request failed: ] followed by the
    upstream message.  The message of that error is what the constructor
    makes of the text, and the error carries neither the class nor the
    response body of the upstream failure. *)
Theorem X5_transport_outcome (this : IExecuteFunctions) (method : Method)
    (resource : string) (body qs : IDataObject) (uri : option string)
    (sent : list HttpRequest) (credentials : Credentials) (header : string) :
  let request := request_options credentials header method resource body qs uri in
  let run := polarionApiRequest this method resource body qs uri sent in
  getCredentials this "polarionApi" = Some credentials ->
  authHeader credentials = inr header ->
  (∀ responseData, helpers_request this sent request = inr responseData ->
     run = (sent ++ [request], inr responseData))
  ∧ (∀ upstream, helpers_request this sent request = inl upstream ->
       ∃ error, run = (sent ++ [request], inl error)
         ∧ error_class error = NodeOperationError
         ∧ message error
           = NodeOperationError_message this
               ("Polarion API request failed: " +:+ message upstream)
         ∧ response_data error = JUndefined).
Proof.
  cbn zeta. intros Hc Ha.
  rewrite (polarionApiRequest_sends _ _ _ _ _ _ _ _ _ Hc Ha). cbn zeta.
  split.
  - by intros responseData ->.
  - intros upstream ->. by exists (request_failed this upstream).
Qed.

(** X6: the request that leaves the helper has the base URL of the stored
    credential, the method, body and query parameters it was called with,
    the JSON flag, and [application/json] as content type and accepted type.
    Its path is the custom [uri] when one is given and is not empty, and the
    resource path otherwise. *)
Theorem X6_request_content (this : IExecuteFunctions) (method0 : Method)
    (resource : string) (body0 qs0 : IDataObject) (uri : option string)
    (sent : list HttpRequest) (request : HttpRequest) :
  (polarionApiRequest this method0 resource body0 qs0 uri sent).1 = sent ++ [request] ->
  (∃ credentials, getCredentials this "polarionApi" = Some credentials
     ∧ baseURL request = baseUrl credentials)
  ∧ method request = method0 ∧ body request = body0 ∧ qs request = qs0
  ∧ json request = true
  ∧ headers request !! "Content-Type" = Some "application/json"
  ∧ headers request !! "Accept" = Some "application/json"
  ∧ (uri = None ∨ uri = Some EmptyString -> url request = resource)
  ∧ (∀ custom, uri = Some custom -> custom ≠ EmptyString -> url request = custom).
Proof.
  intros Hlog.
  destruct (authorized_or_misconfigured this) as [Hauth | Hbad].
  - destruct (helper_sends_when_authorized this method0 resource body0 qs0 uri sent Hauth)
      as (c & h & Hc & Ha & Hrun).
    rewrite Hrun in Hlog. apply app_inv_head in Hlog. injection Hlog as <-.
    split; [by exists c |]. repeat split.
    + by intros [-> | ->].
    + intros custom -> Hne. cbn. by rewrite decide_False.
  - exfalso. destruct (helper_silent_when_misconfigured this method0 resource body0 qs0 uri sent Hbad)
      as [Hrun _].
    rewrite Hrun in Hlog. apply (f_equal length) in Hlog.
    rewrite length_app in Hlog. cbn in Hlog. lia.
Qed.

(** ** Whole batches, whatever the number of failures *)

Lemma recorded_from_error (i k : nat) (outcomes : list (Result (list JsValue)))
    (error : JsError) :
  outcomes !! k = Some (inl error) ->
  error_record error (i + k) ∈ recorded_from i outcomes.
Proof.
  revert i k. induction outcomes as [| outcome outcomes IH]; intros i k Hk; [done |].
  cbn [recorded_from]. apply elem_of_app. destruct k as [| k]; cbn in Hk.
  - injection Hk as ->. left. rewrite Nat.add_0_r. cbn. apply list_elem_of_singleton.
    reflexivity.
  - right. replace (i + S k) with (S i + k) by lia. by apply IH.
Qed.

Lemma recorded_from_records (i k : nat) (outcomes : list (Result (list JsValue)))
    (records : list JsValue) (record : JsValue) :
  outcomes !! k = Some (inr records) -> record ∈ records ->
  record ∈ recorded_from i outcomes.
Proof.
  revert i k. induction outcomes as [| outcome outcomes IH]; intros i k Hk Hr; [done |].
  cbn [recorded_from]. apply elem_of_app. destruct k as [| k]; cbn in Hk.
  - injection Hk as ->. by left.
  - right. by apply IH with k.
Qed.

(** Either every outcome is a success, or there is a first failure. *)
Lemma outcomes_split (outcomes : list (Result (list JsValue))) :
  (∃ successes, outcomes = inr <$> successes)
  ∨ (∃ pre error post, outcomes = (inr <$> pre) ++ inl error :: post).
Proof.
  induction outcomes as [| [error | records] outcomes IH].
  - left. by exists [].
  - right. by exists [], error, outcomes.
  - destruct IH as [[successes ->] | (pre & error & post & ->)].
    + left. by exists (records :: successes).
    + right. by exists (records :: pre), error, post.
Qed.

Section Batches.

Variable JSON_parse : string -> string + JsValue.
Variable this : IExecuteFunctions.

(** When every attempt succeeds the flag is never consulted. *)
Lemma for_items_all_succeed resource operation successes :
  ∀ n i returnData sent log,
    attempts JSON_parse this resource operation n i sent = (log, inr <$> successes) ->
    for_items JSON_parse this resource operation n i returnData sent
    = (log, inr (returnData ++ concat successes)).
Proof.
  induction successes as [| records successes IH];
    intros n i returnData sent log Hrun;
    (destruct n as [| n];
     [cbn in Hrun; injection Hrun as <-; cbn; by rewrite ?app_nil_r |]);
    cbn [attempts] in Hrun;
    destruct (attempt JSON_parse this resource operation i sent)
      as [sent' outcome] eqn:Hatt;
    destruct (attempts JSON_parse this resource operation n (S i) sent')
      as [sent'' outcomes] eqn:Hrest;
    cbn in Hrun.
  - discriminate.
  - injection Hrun as -> -> ->.
    cbn [for_items]. unfold bind at 1. rewrite iteration_attempt, Hatt.
    rewrite (IH _ _ _ _ _ Hrest). cbn. by rewrite <- app_assoc.
Qed.

(** The loop adds at most one request for each item. *)
Lemma for_items_log resource operation n :
  ∀ i returnData sent,
    ∃ added,
      (for_items JSON_parse this resource operation n i returnData sent).1
      = sent ++ added
      ∧ length added ≤ n.
Proof.
  induction n as [| n IH]; intros i returnData sent.
  - exists []. cbn. split; [by rewrite app_nil_r | lia].
  - cbn [for_items]. unfold bind at 1. rewrite iteration_attempt.
    assert (∃ one, (attempt JSON_parse this resource operation i sent).1 = sent ++ one
                   ∧ length one ≤ 1) as (one & Hone & Hlen).
    { destruct (attempt_log JSON_parse this resource operation i sent)
        as [H | (spec & c & h & _ & H)]; rewrite H.
      - exists []. split; [by rewrite app_nil_r | cbn; lia].
      - eexists. split; [reflexivity |]. cbn. lia. }
    destruct (attempt JSON_parse this resource operation i sent)
      as [sent' [error | records]]; cbn [fst] in Hone; subst sent'.
    + destruct (continueOnFail this).
      * destruct (IH (S i) (returnData ++ [error_record error i]) (sent ++ one))
          as (added & -> & Hadded).
        exists (one ++ added). rewrite <- app_assoc, length_app. split; [done | lia].
      * exists one. split; [done | lia].
    + destruct (IH (S i) (returnData ++ records) (sent ++ one))
        as (added & -> & Hadded).
      exists (one ++ added). rewrite <- app_assoc, length_app. split; [done | lia].
Qed.

(** X7: in fail-tolerant mode [execute] never throws, however many items
    fail.  Every item is attempted, the output is handed to the helper of
    the host, each failing item leaves the record that holds its message and
    its own index, and every record that a successful item contributed is in
    the output. *)
Theorem X7_fail_tolerant_never_throws :
  let resource := getNodeParameter this "resource" 0 in
  let operation := getNodeParameter this "operation" 0 in
  let run :=
    attempts JSON_parse this resource operation (length (getInputData this)) 0 [] in
  let output := recorded_from 0 run.2 in
  continueOnFail this = true ->
  execute JSON_parse this [] = (run.1, inr [helpers_returnJsonArray this output])
  ∧ length run.2 = length (getInputData this)
  ∧ (∀ k error, run.2 !! k = Some (inl error) -> error_record error k ∈ output)
  ∧ (∀ k records record, run.2 !! k = Some (inr records) -> record ∈ records ->
       record ∈ output).
Proof.
  cbn zeta. intros Hflag. split; [| split; [| split]].
  - rewrite execute_returns. unfold execute_records.
    by rewrite for_items_tolerant.
  - apply attempts_length.
  - intros k error Hk. by apply (recorded_from_error 0 k).
  - intros k records record Hk Hr. by apply (recorded_from_records 0 k _ records).
Qed.

(** X8: the fail-tolerant flag matters only when an item fails.  When every
    item succeeds, [execute] returns the records of the items in their order,
    whatever the flag; and with the flag off, [execute] returns records only
    when every item has succeeded. *)
Theorem X8_flag_matters_only_on_failure :
  let resource := getNodeParameter this "resource" 0 in
  let operation := getNodeParameter this "operation" 0 in
  let run :=
    attempts JSON_parse this resource operation (length (getInputData this)) 0 [] in
  (∀ successes, run.2 = inr <$> successes ->
     execute_records JSON_parse this [] = (run.1, inr (concat successes)))
  ∧ (continueOnFail this = false ->
     ∀ log output, execute_records JSON_parse this [] = (log, inr output) ->
       ∃ successes, run.2 = inr <$> successes ∧ output = concat successes
         ∧ log = run.1).
Proof.
  cbn zeta. split.
  - intros successes Hrun. unfold execute_records.
    destruct (attempts JSON_parse this (getNodeParameter this "resource" 0)
                (getNodeParameter this "operation" 0)
                (length (getInputData this)) 0 []) as [log outcomes] eqn:Hatt.
    cbn in Hrun. subst outcomes.
    by rewrite (for_items_all_succeed _ _ successes _ _ _ _ log Hatt).
  - intros Hflag log output Hout. unfold execute_records in Hout.
    destruct (attempts JSON_parse this (getNodeParameter this "resource" 0)
                (getNodeParameter this "operation" 0)
                (length (getInputData this)) 0 []) as [log' outcomes] eqn:Hrun.
    destruct (outcomes_split outcomes)
      as [[successes ->] | (pre & error & post & ->)].
    + rewrite (for_items_all_succeed _ _ successes _ _ _ _ log' Hrun) in Hout.
      injection Hout as <- <-. by exists successes.
    + by rewrite (for_items_strict _ _ _ _ pre error Hflag _ _ _ _ log' post Hrun)
        in Hout.
Qed.

(** X9: [execute] sends at most one request for each input item, in either
    mode: there is no retry and no second page. *)
Theorem X9_one_request_per_item (sent : list HttpRequest) :
  ∃ added,
    (execute JSON_parse this sent).1 = sent ++ added
    ∧ length added ≤ length (getInputData this).
Proof.
  rewrite execute_returns. unfold execute_records.
  destruct (for_items_log (getNodeParameter this "resource" 0)
              (getNodeParameter this "operation" 0)
              (length (getInputData this)) 0 [] sent) as (added & Hlog & Hlen).
  exists added. split; [| done].
  by destruct (for_items _ _ _ _ _ _ _ _) as [log [error | returnData]].
Qed.

(** X10: on an empty batch [execute] returns the empty output and sends
    nothing, in either mode; no credential is read, so that a configuration
    error goes unnoticed. *)
Theorem X10_empty_batch (sent : list HttpRequest) :
  getInputData this = [] ->
  execute JSON_parse this sent = (sent, inr [helpers_returnJsonArray this []]).
Proof.
  intros Hempty. rewrite execute_returns. unfold execute_records.
  by rewrite Hempty.
Qed.

End Batches.

(** ** What a dispatch reads *)

Section Reads.

Variable JSON_parse : string -> string + JsValue.
Variable this : IExecuteFunctions.

(** The parameters and options on which [resolve] depends, by resource and
    operation. *)
Lemma resolve_reads (f : string -> nat -> string) (g : nat -> IDataObject)
    (resource operation : string) (i : nat) :
  let id_operation :=
    operation = "get" ∨ operation = "update" ∨ operation = "delete" in
  (operation = "create" ∨ operation = "update" ->
     f "data" i = getNodeParameter this "data" i) ->
  (resource = "workItems" -> id_operation ->
     f "workItemId" i = getNodeParameter this "workItemId" i) ->
  (resource = "workItems" -> operation = "list" ->
     f "query" i = getNodeParameter this "query" i) ->
  (resource = "documents" -> id_operation ->
     f "documentId" i = getNodeParameter this "documentId" i) ->
  (resource = "projects" -> id_operation ->
     f "projectId" i = getNodeParameter this "projectId" i) ->
  (resource ∈ simple_resources -> id_operation ->
     f "resourceId" i = getNodeParameter this "resourceId" i) ->
  common_qs operation (g i) = common_qs operation (getNodeParameter_options this i) ->
  resolve JSON_parse (with_parameters f g this) resource operation i
  = resolve JSON_parse this resource operation i.
Proof.
  cbn zeta. intros Hdata Hwi Hquery Hdoc Hproj Hsimple Hqs.
  unfold resolve. cbn [getNodeParameter_options with_parameters]. rewrite Hqs.
  assert (payload JSON_parse (with_parameters f g this) operation i
          = payload JSON_parse this operation i) as ->.
  { unfold payload. cbn [getNodeParameter with_parameters].
    case_decide; [by rewrite Hdata | done]. }
  destruct (payload JSON_parse this operation i) as [error | [method body]]; [done |].
  cbn [result_bind].
  assert (∀ endpoint qs,
            routing (with_parameters f g this) resource operation i endpoint qs
            = routing this resource operation i endpoint qs) as ->; [| done].
  intros endpoint qs. unfold routing. cbn [getNodeParameter with_parameters].
  repeat case_decide; try case_bool_decide;
    rewrite ?Hwi, ?Hquery, ?Hdoc, ?Hproj, ?Hsimple by done; reflexivity.
Qed.

Lemma attempt_reads (f : string -> nat -> string) (g : nat -> IDataObject)
    (resource operation : string) (i : nat) (sent : list HttpRequest) :
  resolve JSON_parse (with_parameters f g this) resource operation i
  = resolve JSON_parse this resource operation i ->
  attempt JSON_parse (with_parameters f g this) resource operation i sent
  = attempt JSON_parse this resource operation i sent.
Proof. intros H. unfold attempt. by rewrite H. Qed.

Lemma for_items_reads (f : string -> nat -> string) (g : nat -> IDataObject)
    (resource operation : string) (n : nat) :
  (∀ i, resolve JSON_parse (with_parameters f g this) resource operation i
        = resolve JSON_parse this resource operation i) ->
  ∀ i returnData sent,
    for_items JSON_parse (with_parameters f g this) resource operation n i
      returnData sent
    = for_items JSON_parse this resource operation n i returnData sent.
Proof.
  intros H. induction n as [| n IH]; intros i returnData sent; [done |].
  cbn [for_items]. unfold bind. rewrite !iteration_attempt.
  rewrite (attempt_reads _ _ _ _ _ _ (H i)).
  change (continueOnFail (with_parameters f g this)) with (continueOnFail this).
  destruct (attempt JSON_parse this resource operation i sent)
    as [sent' [error | records]]; [destruct (continueOnFail this) |];
    by rewrite ?IH.
Qed.

(** X11: the resource and the operation are read once, for the first item,
    and hold for the whole batch: what these two parameters would evaluate to
    for a later item has no effect on the outcome of [execute]. *)
Theorem X11_selectors_read_for_first_item (f : string -> nat -> string)
    (sent : list HttpRequest) :
  (∀ name i, (name ≠ "resource" ∧ name ≠ "operation") ∨ i = 0 ->
     f name i = getNodeParameter this name i) ->
  execute JSON_parse (with_parameters f (getNodeParameter_options this) this) sent
  = execute JSON_parse this sent.
Proof.
  intros Hf. rewrite !execute_returns. unfold execute_records.
  cbn [getInputData getNodeParameter helpers_returnJsonArray with_parameters].
  rewrite !(Hf _ 0) by (by right).
  rewrite for_items_reads; [done |].
  intros i. apply resolve_reads; try done; intros; apply Hf; left; by split.
Qed.

(** X12: an operation outside the five is not rejected.  On a resource of
    the enumeration it resolves to a GET of the base path with an empty body,
    with no [limit], [skip] or [query] parameter. *)
Theorem X12_unknown_operation (resource operation : string) (i : nat) :
  resource ∈ resources -> operation ∉ operations ->
  ∃ spec, resolve JSON_parse this resource operation i = inr spec
    ∧ spec_method spec = GET
    ∧ spec_endpoint spec = "/" +:+ resource
    ∧ spec_body spec = ∅
    ∧ spec_qs spec !! "limit" = None ∧ spec_qs spec !! "skip" = None
    ∧ spec_qs spec !! "query" = None
    ∧ spec_qs spec !! "fields"
      = common_qs operation (getNodeParameter_options this i) !! "fields".
Proof.
  intros Hres Hop. unfold operations in Hop.
  rewrite !not_elem_of_cons in Hop. destruct Hop as (Hl & Hg & Hc & Hu & Hd & _).
  eexists. split.
  { apply resolve_known; [done |]. by apply payload_without_data. }
  cbn. unfold documented_method, documented_path, documented_filter.
  rewrite !decide_False by done.
  rewrite bool_decide_eq_false_2 by (rewrite id_operation_elem; tauto).
  rewrite bool_decide_eq_false_2 by tauto.
  destruct (common_qs_not_list operation (getNodeParameter_options this i) Hl)
    as [Hlimit Hskip].
  repeat split; try done.
  unfold common_qs. rewrite decide_False by done.
  by destruct (truthy _); rewrite ?lookup_insert_ne, lookup_empty.
Qed.

(** X13: whatever the options of the item hold, the query string of a
    resolved dispatch has no parameter other than [fields], [limit], [skip]
    and [query]; [limit] and [skip] are there exactly for the list operation,
    and [query] exactly for the list of work items. *)
Theorem X13_query_parameters (resource operation : string) (i : nat)
    (spec : RequestSpec) :
  resolve JSON_parse this resource operation i = inr spec ->
  (∀ k, is_Some (spec_qs spec !! k) -> k ∈ ["fields"; "limit"; "skip"; "query"])
  ∧ (is_Some (spec_qs spec !! "limit") ↔ operation = "list")
  ∧ (is_Some (spec_qs spec !! "skip") ↔ operation = "list")
  ∧ (is_Some (spec_qs spec !! "query")
     ↔ resource = "workItems" ∧ operation = "list").
Proof.
  intros Hr.
  assert (∀ k, k ≠ "query" ->
            spec_qs spec !! k
            = common_qs operation (getNodeParameter_options this i) !! k) as Hcommon.
  { intros k Hk. by apply (resolve_qs JSON_parse this resource). }
  assert (∀ k, is_Some (common_qs operation (getNodeParameter_options this i) !! k) ->
            k = "fields" ∨ (operation = "list" ∧ (k = "limit" ∨ k = "skip")))
    as Hkeys.
  { intros k. unfold common_qs.
    destruct (decide (operation = "list")), (truthy _);
      rewrite ?lookup_insert, ?lookup_empty; repeat case_decide;
      subst; intros [v Hv]; try discriminate; tauto. }
  assert (is_Some (spec_qs spec !! "query")
          ↔ resource = "workItems" ∧ operation = "list") as Hquery.
  { unfold resolve in Hr.
    destruct (payload _ _ _ _) as [error | [method body]]; [discriminate |].
    cbn in Hr.
    destruct (routing _ _ _ _ _ _) as [error | [endpoint qs']] eqn:Hrt;
      [discriminate |].
    injection Hr as <-. cbn.
    assert (common_qs operation (getNodeParameter_options this i) !! "query" = None)
      as Hnone.
    { destruct (common_qs operation (getNodeParameter_options this i) !! "query")
        eqn:Hq; [| done].
      destruct (Hkeys "query" (mk_is_Some _ _ Hq)) as [? | [_ [? | ?]]]; discriminate. }
    destruct (decide (resource ∈ resources)) as [Hres | Hres];
      [rewrite routing_known in Hrt by done
      | by rewrite routing_unknown in Hrt].
    injection Hrt as _ <-. unfold documented_filter. case_bool_decide as Hwl.
    + rewrite lookup_insert_eq. split; [done | by eexists].
    + rewrite Hnone. split; [by intros [? ?] | done]. }
  split; [| split; [| split]]; [| | | done].
  - intros k Hk. destruct (decide (k = "query")) as [-> | Hne].
    + rewrite !elem_of_cons. tauto.
    + rewrite Hcommon in Hk by done.
      destruct (Hkeys k Hk) as [-> | [_ [-> | ->]]]; rewrite !elem_of_cons; tauto.
  - rewrite Hcommon by done. split.
    + intros H. destruct (Hkeys _ H) as [? | [? _]]; [discriminate | done].
    + intros ->. rewrite common_qs_limit. by eexists.
  - rewrite Hcommon by done. split.
    + intros H. destruct (Hkeys _ H) as [? | [? _]]; [discriminate | done].
    + intros ->. rewrite common_qs_skip. by eexists.
Qed.

(** X14: on the list operation a [limit] or [skip] that is truthy goes out
    exactly as it was supplied: a negative number, a fraction or a string is
    neither checked nor converted. *)
Theorem X14_pagination_unchecked (resource : string) (i : nat) (spec : RequestSpec)
    (supplied : JsValue) :
  resolve JSON_parse this resource "list" i = inr spec ->
  truthy supplied = true ->
  (getNodeParameter_options this i !! "limit" = Some supplied ->
     spec_qs spec !! "limit" = Some supplied)
  ∧ (getNodeParameter_options this i !! "skip" = Some supplied ->
     spec_qs spec !! "skip" = Some supplied).
Proof.
  intros Hr Ht.
  rewrite !(resolve_qs JSON_parse this resource "list" i spec) by done.
  rewrite common_qs_limit, common_qs_skip. unfold js_or, prop.
  split; intros ->; cbn; by rewrite Ht.
Qed.

End Reads.

(** ** The declarations and the code *)

Lemma resource_values : Declared.values Declared.resourceSelector = resources.
Proof. reflexivity. Qed.

Lemma operation_values : Declared.values Declared.operationSelector = operations.
Proof. reflexivity. Qed.

(** The declared property at a position of the list of the node. *)
Ltac declared k :=
  apply (list_elem_of_lookup_2 _ k); reflexivity.

(** A resource of the generic branch, one by one. *)
Ltac each_simple_resource H :=
  unfold simple_resources in H; rewrite !elem_of_cons, elem_of_nil in H;
  repeat (destruct H as [-> | H]); [.. | done].

Section Declarations.

Variable JSON_parse : string -> string + JsValue.
Variable this : IExecuteFunctions.

(** X15: a dispatch depends on the parameters of the item only through the
    properties that the node declares for the chosen resource and operation,
    and on the options only through the entries of the collection declared
    for the operation (the entries are looked at whether or not the
    collection itself is listed).  Two items that agree on these resolve to
    the same request or to the same error. *)
Theorem X15_reads_only_declared (f : string -> nat -> string)
    (g : nat -> IDataObject) (resource operation : string) (i : nat) :
  let selected := Declared.selection resource operation in
  (∀ p, p ∈ Declared.properties Declared.Polarion_description ->
     Declared.shown_for selected p = true ->
     f (Declared.name p) i = getNodeParameter this (Declared.name p) i) ->
  (∀ q, q ∈ Declared.entries Declared.commonOptions ->
     Declared.shown_for selected q = true ->
     prop (g i) (Declared.name q)
     = prop (getNodeParameter_options this i) (Declared.name q)) ->
  resolve JSON_parse (with_parameters f g this) resource operation i
  = resolve JSON_parse this resource operation i.
Proof.
  cbn zeta. intros Hp Hq. apply resolve_reads.
  - intros Hop. refine (Hp Declared.genericDataField _ _); [declared 7 |].
    by destruct Hop as [-> | ->].
  - intros -> Hop.
    refine (Hp (nth 0 Declared.workItemFields Declared.genericDataField) _ _);
      [declared 2 |].
    by destruct Hop as [-> | [-> | ->]].
  - intros -> ->.
    by refine (Hp (nth 1 Declared.workItemFields Declared.genericDataField) _ _);
      [declared 3 |].
  - intros -> Hop.
    refine (Hp (nth 0 Declared.documentFields Declared.genericDataField) _ _);
      [declared 4 |].
    by destruct Hop as [-> | [-> | ->]].
  - intros -> Hop.
    refine (Hp (nth 0 Declared.projectFields Declared.genericDataField) _ _);
      [declared 5 |].
    by destruct Hop as [-> | [-> | ->]].
  - intros Hres Hop. refine (Hp Declared.simpleResourceIdField _ _); [declared 6 |].
    each_simple_resource Hres; by destruct Hop as [-> | [-> | ->]].
  - assert (∀ k q, Declared.entries Declared.commonOptions !! k = Some q ->
              Declared.shown_for (Declared.selection resource operation) q = true ->
              prop (g i) (Declared.name q)
              = prop (getNodeParameter_options this i) (Declared.name q)) as Hentry.
    { intros k q Hk. apply Hq. by apply list_elem_of_lookup_2 with k. }
    unfold common_qs.
    rewrite (Hentry 0 _ eq_refl eq_refl : prop (g i) "fields" = _).
    case_decide as Hlist; [| done]. subst operation.
    rewrite (Hentry 1 _ eq_refl eq_refl : prop (g i) "limit" = _).
    by rewrite (Hentry 2 _ eq_refl eq_refl : prop (g i) "skip" = _).
Qed.

End Declarations.

Lemma shown_for_resource_operation (p : Declared.INodeProperties)
    (resource operation : string) (rs os : list string) :
  Declared.displayOptions p = Some [("resource", rs); ("operation", os)] ->
  Declared.shown_for (Declared.selection resource operation) p = true ->
  resource ∈ rs ∧ operation ∈ os.
Proof.
  unfold Declared.shown_for. intros -> H. cbn in H.
  apply andb_true_iff in H as [Hr H]. apply andb_true_iff in H as [Ho _].
  by apply bool_decide_eq_true in Hr, Ho.
Qed.

Section DeclaredIdentifiers.

Variable JSON_parse : string -> string + JsValue.
Variable this : IExecuteFunctions.

(** What a resolved dispatch on a resource of the enumeration holds. *)
Lemma resolve_inr_known (that : IExecuteFunctions) resource operation i spec :
  resource ∈ resources ->
  resolve JSON_parse that resource operation i = inr spec ->
  spec_endpoint spec = documented_path that resource operation i
  ∧ spec_qs spec
    = documented_filter that resource operation i
        (common_qs operation (getNodeParameter_options that i)).
Proof.
  intros Hres Hr. unfold resolve in Hr.
  destruct (payload _ _ _ _) as [error | [method body]]; [discriminate |].
  cbn in Hr. rewrite routing_known in Hr by done. by injection Hr as <-.
Qed.

(** X3: the path of a get, update or delete of a document is
    [/documents/] followed by the encoded identifier.  Counted in bytes of
    UTF-8, it is two characters longer than the plain path for each byte of
    the identifier that is not a letter, a digit or one of
    [- _ . ! ~ * ' ( )], so never more than three times the identifier after
    the prefix; and it is the plain path exactly when the identifier has no
    such byte. *)
Theorem X3_document_path_shape (operation : string) (i : nat) (spec : RequestSpec) :
  let documentId := getNodeParameter this "documentId" i in
  operation ∈ ["get"; "update"; "delete"] ->
  resolve JSON_parse this "documents" operation i = inr spec ->
  String.length (spec_endpoint spec)
  = String.length ("/documents/" +:+ documentId) + 2 * escaped documentId
  ∧ String.length (spec_endpoint spec) ≤ 11 + 3 * String.length documentId
  ∧ (spec_endpoint spec = "/documents/" +:+ documentId
     ↔ forallb uriUnescaped (list_ascii_of_string documentId) = true).
Proof.
  intros documentId Hop Hr.
  apply resolve_inr_known in Hr as [Hpath _]; [| compute_done].
  unfold documented_path, documented_identifier in Hpath.
  rewrite bool_decide_eq_true_2 in Hpath by done.
  rewrite decide_False, decide_True in Hpath by done.
  change (spec_endpoint spec = "/documents/" +:+ encodeURIComponent documentId)
    in Hpath.
  destruct (encodeURIComponent_shape documentId) as (Hlen & Hle & Hfixed).
  rewrite Hpath.
  change ("/documents/" +:+ encodeURIComponent documentId)
    with (String "/" (String "d" (String "o" (String "c" (String "u" (String "m"
           (String "e" (String "n" (String "t" (String "s" (String "/"
             (encodeURIComponent documentId)))))))))))).
  change ("/documents/" +:+ documentId)
    with (String "/" (String "d" (String "o" (String "c" (String "u" (String "m"
           (String "e" (String "n" (String "t" (String "s" (String "/"
             documentId))))))))))).
  cbn [String.length]. split; [lia |]. split; [lia |].
  rewrite <- Hfixed. split; [by intros [= ->] | by intros ->].
Qed.

(** X16: every identifier and filter that the node declares is read where it
    is listed, and nothing of it is lost.  For a resource and an operation of
    the selectors, two items that resolve to the same request have the same
    value in each of the parameters [workItemId], [query], [documentId],
    [projectId] and [resourceId] that is listed for the selection. *)
Theorem X16_declared_identifier_is_read (f : string -> nat -> string)
    (g : nat -> IDataObject) (resource operation : string) (i : nat)
    (p : Declared.INodeProperties) (spec : RequestSpec) :
  p ∈ Declared.allProperties -> Declared.name p ≠ "data" ->
  resource ∈ Declared.values Declared.resourceSelector ->
  Declared.shown_for (Declared.selection resource operation) p = true ->
  resolve JSON_parse this resource operation i = inr spec ->
  resolve JSON_parse (with_parameters f g this) resource operation i = inr spec ->
  f (Declared.name p) i = getNodeParameter this (Declared.name p) i.
Proof.
  intros Hp Hname Hres Hshown Hthis Hthat. rewrite resource_values in Hres.
  destruct (resolve_inr_known this _ _ _ _ Hres Hthis) as [Hpath Hqs].
  destruct (resolve_inr_known _ _ _ _ _ Hres Hthat) as [Hpath' Hqs'].
  rewrite Hpath in Hpath'. rewrite Hqs in Hqs'. clear Hpath Hqs Hthis Hthat.
  unfold Declared.allProperties in Hp.
  cbn in Hp. rewrite !elem_of_cons, elem_of_nil in Hp.
  destruct Hp as [-> | [-> | [-> | [-> | [-> | [-> | []]]]]]]; cbn in Hname |- *;
    try done;
    (eapply shown_for_resource_operation in Hshown as [Hr Ho]; [| reflexivity]).
  - apply list_elem_of_singleton in Hr as ->.
    unfold documented_path, documented_identifier in Hpath'.
    rewrite bool_decide_eq_true_2 in Hpath' by done. cbn in Hpath'.
    by apply (string_app_inj_l "/workItems/") in Hpath'.
  - apply list_elem_of_singleton in Hr as ->.
    apply list_elem_of_singleton in Ho as ->.
    apply (f_equal (fun m : IDataObject => m !! "query")) in Hqs'.
    unfold documented_filter in Hqs'. rewrite bool_decide_eq_true_2 in Hqs' by done.
    rewrite !lookup_insert_eq in Hqs'. cbn in Hqs'. by injection Hqs'.
  - apply list_elem_of_singleton in Hr as ->.
    unfold documented_path, documented_identifier in Hpath'.
    rewrite bool_decide_eq_true_2 in Hpath' by done. cbn in Hpath'.
    by apply (string_app_inj_l "/documents/"), encodeURIComponent_inj in Hpath'.
  - apply list_elem_of_singleton in Hr as ->.
    unfold documented_path, documented_identifier in Hpath'.
    rewrite bool_decide_eq_true_2 in Hpath' by done. cbn in Hpath'.
    by apply (string_app_inj_l "/projects/") in Hpath'.
  - unfold documented_path, documented_identifier in Hpath'.
    rewrite bool_decide_eq_true_2 in Hpath' by done.
    apply (string_app_inj_l "/"), (string_app_inj_l resource),
      (string_app_inj_l "/") in Hpath'.
    rewrite !elem_of_cons, elem_of_nil in Hr.
    repeat (destruct Hr as [-> | Hr]; [symmetry; exact Hpath' |]). done.
Qed.

(** X17: the defensive branch of the routing is out of reach of the
    selectors.  On a resource that the resource selector offers, whatever
    the operation and the parameters, the dispatch resolves or fails before
    the routing has run through: with the [SyntaxError] of a create or update
    whose text [JSON.parse] rejects, or with the [URIError] of a get, update
    or delete of a document in whose identifier a surrogate lacks its
    partner.  It never fails with the routing error.  Any other resource
    never resolves.  The defaults of the two selectors are among the values
    they offer. *)
Theorem X17_selector_values_resolve (documentId : nat -> list N)
    (resource operation : string) (i : nat) :
  let dispatch := resolve_units JSON_parse this documentId resource operation i in
  (resource ∈ Declared.values Declared.resourceSelector ->
     ((∃ spec, dispatch = inr spec)
      ∨ ((operation = "create" ∨ operation = "update")
         ∧ ∃ msg, JSON_parse (getNodeParameter this "data" i) = inl msg
             ∧ dispatch = inl (mkError SyntaxError msg JUndefined))
      ∨ (resource = "documents" ∧ operation ∈ ["get"; "update"; "delete"]
         ∧ utf8 (documentId i) = None ∧ dispatch = inl URI_malformed))
     ∧ dispatch ≠ inl (routing_error this resource))
  ∧ (resource ∉ Declared.values Declared.resourceSelector ->
     ∃ error, dispatch = inl error)
  ∧ (∃ r o, Declared.default Declared.resourceSelector = JStr r
       ∧ r ∈ Declared.values Declared.resourceSelector
       ∧ Declared.default Declared.operationSelector = JStr o
       ∧ o ∈ Declared.values Declared.operationSelector).
Proof.
  cbn zeta. rewrite resource_values. split; [| split].
  - intros Hres.
    assert ((∃ spec, resolve_units JSON_parse this documentId resource operation i
                     = inr spec)
            ∨ ((operation = "create" ∨ operation = "update")
               ∧ ∃ msg, JSON_parse (getNodeParameter this "data" i) = inl msg
                   ∧ resolve_units JSON_parse this documentId resource operation i
                     = inl (mkError SyntaxError msg JUndefined))
            ∨ (resource = "documents" ∧ operation ∈ ["get"; "update"; "delete"]
               ∧ utf8 (documentId i) = None
               ∧ resolve_units JSON_parse this documentId resource operation i
                 = inl URI_malformed)) as Hcases.
    { assert ((∃ msg, (operation = "create" ∨ operation = "update")
                 ∧ JSON_parse (getNodeParameter this "data" i) = inl msg)
              ∨ ∃ method body, payload JSON_parse this operation i
                               = inr (method, body)) as [(msg & Hop & Hp) | Hpay].
      { destruct (decide (operation = "create" ∨ operation = "update")) as [Hop | Hop].
        - destruct (JSON_parse (getNodeParameter this "data" i))
            as [msg | parsed] eqn:Hp.
          + left. by exists msg.
          + right. do 2 eexists. by apply payload_parsed.
        - right. do 2 eexists. apply payload_without_data; tauto. }
      - right. left. split; [done |]. exists msg. split; [done |].
        by apply resolve_units_payload_error, payload_rejected.
      - destruct Hpay as (method & body & Hpay).
        destruct (decide (resource = "documents")) as [-> | Hother].
        + destruct (decide (operation = "get" ∨ operation = "update"
                            ∨ operation = "delete")) as [Hop | Hop].
          * apply id_operation_elem in Hop.
            rewrite (resolve_units_documents _ _ documentId _ _ _ _ Hop Hpay).
            destruct (utf8 (documentId i)) as [text |] eqn:Hform.
            -- left. by eexists.
            -- right. right. done.
          * left. rewrite resolve_units_not_identified by done.
            eexists. by apply resolve_known.
        + left. rewrite resolve_units_other by done. eexists. by apply resolve_known. }
    split; [exact Hcases |].
    destruct Hcases as [[spec ->] | [(_ & msg & _ & ->) | (_ & _ & _ & ->)]];
      discriminate.
  - intros Hres.
    assert (resource ≠ "documents") as Hother.
    { intros ->. apply Hres. compute_done. }
    rewrite resolve_units_other by done.
    destruct (payload JSON_parse this operation i) as [error | [method body]] eqn:Hp.
    + exists error. by apply resolve_payload_error.
    + exists (routing_error this resource).
      rewrite (resolve_after_payload _ _ _ _ _ _ _ Hp). by rewrite routing_unknown.
  - exists "workItems", "list". repeat split; compute_done.
Qed.

(** X18: an item whose options all hold their declared defaults resolves as
    an item without options: the declared defaults of [limit] and [skip] are
    the values that the code falls back on, and the empty default of
    [fields] is not attached. *)
Theorem X18_declared_defaults (resource operation : string) (i : nat) :
  getNodeParameter_options this i = Declared.default_options ->
  resolve JSON_parse this resource operation i
  = resolve JSON_parse (with_parameters (getNodeParameter this) (fun _ => ∅) this)
      resource operation i.
Proof.
  intros Hdefaults. symmetry. apply resolve_reads; try done.
  rewrite Hdefaults. unfold common_qs. by case_decide.
Qed.

End DeclaredIdentifiers.

(** ** The credential type and the helper *)

Section DeclaredCredential.

Variable this : IExecuteFunctions.

(** X19: the authentication methods that the credential type offers are
    exactly those for which the helper builds a header; the declared default
    is one of them; and the helper reads the credential under the name that
    the credential type carries and that the node declares as required. *)
Theorem X19_declared_methods_supported (credentials : Credentials)
    (p : Declared.INodeProperties) :
  p ∈ Declared.credential_properties Declared.PolarionApi ->
  Declared.name p = "authentication" ->
  ((∃ header, authHeader credentials = inr header)
   ↔ authentication credentials ∈ Declared.values p)
  ∧ (∃ method, Declared.default p = JStr method ∧ method ∈ Declared.values p)
  ∧ (Declared.credential_name Declared.PolarionApi, true)
    ∈ Declared.credentials Declared.Polarion_description
  ∧ ∀ method resource body qs uri sent,
      polarionApiRequest
        (with_credentials
           (getCredentials this (Declared.credential_name Declared.PolarionApi)) this)
        method resource body qs uri sent
      = polarionApiRequest this method resource body qs uri sent.
Proof.
  intros Hp Hname.
  change (Declared.credential_properties Declared.PolarionApi)
    with Declared.PolarionApi_properties in Hp.
  unfold Declared.PolarionApi_properties in Hp.
  rewrite !elem_of_cons, elem_of_nil in Hp.
  destruct Hp as [-> | [-> | [-> | [-> | [-> | []]]]]]; try discriminate Hname.
  split; [| split; [| split]].
  - change (Declared.values _) with ["basic"; "pat"].
    rewrite !elem_of_cons, elem_of_nil. split.
    + intros [header Ha].
      destruct (authHeader_cases credentials) as [[? | ?] | Hbad];
        [tauto | tauto | by rewrite Hbad in Ha].
    + intros [Hb | [Hpat | []]]; eexists;
        [by apply authHeader_basic | by apply authHeader_pat].
  - exists "basic". split; [reflexivity | compute_done].
  - compute_done.
  - reflexivity.
Qed.

(** X20: the helper takes from the credential only what the credential type
    lists for the chosen authentication method: the base URL and the method
    always, user name and password under basic authentication, the token
    under token authentication.  Two credentials that agree on the listed
    fields give the same outcome of the helper. *)
Theorem X20_reads_only_listed_fields (c1 c2 : Credentials) (method : Method)
    (resource : string) (body qs : IDataObject) (uri : option string)
    (sent : list HttpRequest) :
  (∀ p, p ∈ Declared.credential_properties Declared.PolarionApi ->
     Declared.shown_for (Declared.method_selection (authentication c1)) p = true ->
     credential_field c1 (Declared.name p) = credential_field c2 (Declared.name p)) ->
  authHeader c1 = authHeader c2
  ∧ polarionApiRequest (with_credentials (Some c1) this) method resource body qs
      uri sent
    = polarionApiRequest (with_credentials (Some c2) this) method resource body qs
        uri sent.
Proof.
  intros H.
  assert (∀ k p, Declared.PolarionApi_properties !! k = Some p ->
            Declared.shown_for (Declared.method_selection (authentication c1)) p = true ->
            credential_field c1 (Declared.name p) = credential_field c2 (Declared.name p))
    as Hfield.
  { intros k p Hk. apply H. by apply list_elem_of_lookup_2 with k. }
  pose proof (Hfield 0 _ eq_refl eq_refl) as Hurl. cbn in Hurl. injection Hurl as Hurl.
  pose proof (Hfield 1 _ eq_refl eq_refl) as Hauth. cbn in Hauth.
  injection Hauth as Hauth.
  assert (authHeader c1 = authHeader c2) as Hheader.
  { unfold authHeader. rewrite <- Hauth.
    destruct (decide (authentication c1 = "basic")) as [Hb | Hb].
    - pose proof (Hfield 2 _ eq_refl) as Hu. pose proof (Hfield 3 _ eq_refl) as Hpw.
      rewrite Hb in Hu, Hpw. specialize (Hu eq_refl). specialize (Hpw eq_refl).
      cbn in Hu, Hpw. injection Hu as ->. by injection Hpw as ->.
    - destruct (decide (authentication c1 = "pat")) as [Hp | Hp]; [| done].
      pose proof (Hfield 4 _ eq_refl) as Ht. rewrite Hp in Ht.
      specialize (Ht eq_refl). cbn in Ht. by injection Ht as ->. }
  split; [done |].
  unfold polarionApiRequest. cbn [getCredentials with_credentials].
  unfold bind, lift. rewrite <- Hheader.
  destruct (authHeader c1) as [error | header]; [done |].
  unfold request_options. rewrite <- Hurl. reflexivity.
Qed.

End DeclaredCredential.

(** ** Every request of a batch *)

Section Requests.

Variable JSON_parse : string -> string + JsValue.
Variable this : IExecuteFunctions.

Lemma attempt_log_item resource operation i sent :
  (attempt JSON_parse this resource operation i sent).1 = sent
  ∨ ∃ request, request_of_item JSON_parse this resource operation i request
      ∧ (attempt JSON_parse this resource operation i sent).1 = sent ++ [request].
Proof.
  destruct (resolve JSON_parse this resource operation i) as [error | spec] eqn:Hr.
  { left. by rewrite (attempt_unresolved _ _ _ _ _ _ _ Hr). }
  destruct (getCredentials this "polarionApi") as [credentials |] eqn:Hc.
  - destruct (authHeader credentials) as [error | header] eqn:Ha.
    + left. rewrite (attempt_resolved _ _ _ _ _ _ _ Hr).
      by rewrite (polarionApiRequest_unauthorized _ _ _ _ _ _ _ _ _ Hc Ha).
    + right. eexists. split; [by exists spec, credentials, header |].
      by rewrite (attempt_sends _ _ _ _ _ _ _ _ _ Hr Hc Ha).
  - left. rewrite (attempt_resolved _ _ _ _ _ _ _ Hr).
    by rewrite polarionApiRequest_no_credentials.
Qed.

Lemma for_items_requests resource operation n :
  ∀ i returnData sent request,
    request ∈ (for_items JSON_parse this resource operation n i returnData sent).1 ->
    request ∈ sent
    ∨ ∃ j, i ≤ j < i + n ∧ request_of_item JSON_parse this resource operation j request.
Proof.
  induction n as [| n IH]; intros i returnData sent request Hin; [by left |].
  cbn [for_items] in Hin. unfold bind at 1 in Hin. rewrite iteration_attempt in Hin.
  assert (∀ r, r ∈ (attempt JSON_parse this resource operation i sent).1 ->
            r ∈ sent ∨ request_of_item JSON_parse this resource operation i r) as Hone.
  { intros r Hr.
    destruct (attempt_log_item resource operation i sent)
      as [H | (r' & Hitem & H)]; rewrite H in Hr; [by left |].
    apply elem_of_app in Hr as [Hr | Hr]; [by left |].
    apply list_elem_of_singleton in Hr as ->. by right. }
  assert (∀ r, r ∈ (attempt JSON_parse this resource operation i sent).1 ->
            r ∈ sent
            ∨ ∃ j, i ≤ j < i + S n ∧ request_of_item JSON_parse this resource operation j r) as Hhere.
  { intros r Hr. destruct (Hone r Hr) as [? | ?]; [by left |].
    right. exists i. split; [lia | done]. }
  assert (∀ returnData',
            request ∈ (for_items JSON_parse this resource operation n (S i)
                         returnData'
                         (attempt JSON_parse this resource operation i sent).1).1 ->
            request ∈ sent
            ∨ ∃ j, i ≤ j < i + S n ∧ request_of_item JSON_parse this resource operation j request)
    as Hlater.
  { intros returnData' Hr. destruct (IH _ _ _ _ Hr) as [Hr' | (j & Hj & Hitem)].
    - by apply Hhere.
    - right. exists j. split; [lia | done]. }
  destruct (attempt JSON_parse this resource operation i sent)
    as [sent' [error | records]]; cbn [fst] in *.
  - destruct (continueOnFail this); [by eapply Hlater | by apply Hhere].
  - by eapply Hlater.
Qed.

(** X21: every request that [execute] sends is the resolved request of one
    of the input items, with the header that the stored credential gives;
    [execute] passes no custom [uri], so that its path is the resolved
    endpoint. *)
Theorem X21_requests_of_execute (request : HttpRequest) :
  let resource := getNodeParameter this "resource" 0 in
  let operation := getNodeParameter this "operation" 0 in
  request ∈ (execute JSON_parse this []).1 ->
  ∃ i spec credentials header,
    i < length (getInputData this)
    ∧ resolve JSON_parse this resource operation i = inr spec
    ∧ getCredentials this "polarionApi" = Some credentials
    ∧ authHeader credentials = inr header
    ∧ request
      = request_options credentials header (spec_method spec) (spec_endpoint spec)
          (spec_body spec) (spec_qs spec) None
    ∧ url request = spec_endpoint spec
    ∧ headers request !! "Authorization" = Some header.
Proof.
  cbn zeta. intros Hin. rewrite execute_returns in Hin. unfold execute_records in Hin.
  assert (request ∈ (for_items JSON_parse this (getNodeParameter this "resource" 0)
                       (getNodeParameter this "operation" 0)
                       (length (getInputData this)) 0 [] []).1) as Hlog.
  { by destruct (for_items _ _ _ _ _ _ _ _) as [log [error | returnData]]. }
  destruct (for_items_requests _ _ _ _ _ _ _ Hlog)
    as [Hnil | (j & Hj & spec & c & h & Hr & Hc & Ha & ->)];
    [by apply elem_of_nil in Hnil |].
  exists j, spec, c, h. repeat split; try done. lia.
Qed.

End Requests.

(** ** A payload that is a string *)

Section StringPayload.

Variable JSON_parse : string -> string + JsValue.
Variable this : IExecuteFunctions.

(** X22: a create or update whose text parses to a string sends a body with
    one property for each UTF-16 code unit of the string and no other:
    the property [k] holds the string of the code unit [k].  For a character
    outside the BMP these are the two halves of its surrogate pair, each
    held as the three bytes that the scheme of UTF-8 gives to it. *)
Theorem X22_string_payload_code_units (units : list N) (text : string)
    (resource operation : string) (i : nat) (spec : RequestSpec) :
  operation = "create" ∨ operation = "update" ->
  Forall (fun u => (u < 65536)%N) units ->
  utf8 units = Some text ->
  JSON_parse (getNodeParameter this "data" i) = inr (JStr text) ->
  resolve JSON_parse this resource operation i = inr spec ->
  (∀ k, spec_body spec !! pretty k = JStr ∘ utf8_of_code_point <$> units !! k)
  ∧ (∀ key, is_Some (spec_body spec !! key) ->
       ∃ k, k < length units ∧ key = pretty k).
Proof.
  intros Hop Hunits Hform Hparse Hr.
  assert (spec_body spec = indexed (JStr <$> (utf8_of_code_point <$> units)))
    as ->.
  { rewrite (resolve_after_payload _ _ _ _ _ _ _ (payload_parsed _ _ _ _ _ Hop Hparse))
      in Hr.
    destruct (routing _ _ _ _ _ _) as [error | [endpoint qs]]; [discriminate |].
    injection Hr as <-. cbn.
    destruct (Object_assign_shapes (JStr text)) as (_ & _ & Hstring & _).
    rewrite (Hstring text eq_refl). by rewrite (utf8_code_units units text). }
  split.
  - intros k. rewrite indexed_lookup, !list_lookup_fmap.
    by destruct (units !! k).
  - intros key Hkey. apply indexed_keys in Hkey as (k & Hk & ->).
    exists k. split; [| done]. by rewrite !length_fmap in Hk.
Qed.

End StringPayload.

(** ** The further properties at sample inputs *)


(** X2 at the same two credentials. *)
Lemma X2_colon_in_username_witness :
  username colon_in_username ≠ username colon_in_password
  ∧ authHeader colon_in_username = authHeader colon_in_password.
Proof.
  split; [discriminate |].
  exact (X2_colon_in_username colon_in_username colon_in_password
           "ops" "team" "secret" eq_refl eq_refl eq_refl eq_refl eq_refl eq_refl).
Defined.

(** X3 at a document identifier with one slash. *)
Lemma X3_document_path_shape_witness :
  ∃ spec, resolve sample_JSON_parse get_document "documents" "get" 0 = inr spec
    ∧ String.length (spec_endpoint spec)
      = String.length "/documents/MyProject/Specification" + 2.
Proof.
  eexists. split; [reflexivity |].
  refine (proj1 (X3_document_path_shape sample_JSON_parse get_document "get" 0 _
                   _ eq_refl)).
  compute_done.
Defined.

(** X4 at a stored credential of basic authentication. *)
Lemma X4_request_iff_authorized_witness :
  ∃ credentials header,
    getCredentials list_workItems "polarionApi" = Some credentials
    ∧ authHeader credentials = inr header
    ∧ (polarionApiRequest list_workItems GET "/workItems" ∅ ∅ None []).1
      = [] ++ [request_options credentials header GET "/workItems" ∅ ∅ None].
Proof.
  apply (proj1 (X4_request_iff_authorized list_workItems GET "/workItems" ∅ ∅ None [])).
  exists (sample_credentials "basic"). split; [reflexivity | by left].
Defined.

(** X5 at a transport whose connection is refused: the message of the error
    is the one that the constructor puts in the place of the text. *)
Lemma X5_transport_outcome_witness :
  (polarionApiRequest list_workItems_refused GET "/workItems" ∅ ∅ None []).2
  = inl (mkError NodeOperationError
           "The service refused the connection - perhaps it is offline" JUndefined).
Proof.
  destruct (X5_transport_outcome list_workItems_refused GET "/workItems" ∅ ∅ None []
              (sample_credentials "basic") "Basic dXNlcjpwYXNz" eq_refl eq_refl)
    as [_ Hfailure].
  destruct (Hfailure _ eq_refl) as (error & Hrun & Hclass & Hmessage & Hdata).
  rewrite Hrun. destruct error as [c m d]. cbn in *. by subst.
Defined.

(** X6 at a custom path. *)
Lemma X6_request_content_witness :
  ∃ request,
    (polarionApiRequest list_workItems GET "/workItems" ∅ ∅ (Some "/custom") []).1
    = [] ++ [request]
    ∧ url request = "/custom".
Proof.
  eexists. split; [reflexivity |].
  destruct (X6_request_content list_workItems GET "/workItems" ∅ ∅ (Some "/custom")
              [] _ eq_refl) as (_ & _ & _ & _ & _ & _ & _ & _ & Hcustom).
  exact (Hcustom "/custom" eq_refl ltac:(discriminate)).
Defined.

(** X7 at the batch whose second item fails. *)
Lemma X7_fail_tolerant_never_throws_witness :
  ∃ log output, execute sample_JSON_parse batch_second_fails [] = (log, inr output).
Proof.
  do 2 eexists.
  exact (proj1 (X7_fail_tolerant_never_throws sample_JSON_parse batch_second_fails
                  eq_refl)).
Defined.

(** X8 at one list of work items that succeeds. *)
Lemma X8_flag_matters_only_on_failure_witness :
  ∃ log, execute_records sample_JSON_parse list_workItems [] = (log, inr [JObj ∅]).
Proof.
  eexists.
  exact (proj1 (X8_flag_matters_only_on_failure sample_JSON_parse list_workItems)
           [[JObj ∅]] eq_refl).
Defined.

(** X9 at the batch whose second item fails. *)
Lemma X9_one_request_per_item_witness :
  ∃ added,
    (execute sample_JSON_parse batch_second_fails []).1 = [] ++ added
    ∧ length added ≤ 2.
Proof.
  exact (X9_one_request_per_item sample_JSON_parse batch_second_fails []).
Defined.

(** X10 at an empty batch without a stored credential. *)
Lemma X10_empty_batch_witness :
  misconfigured empty_batch
  ∧ execute sample_JSON_parse empty_batch []
    = ([], inr [helpers_returnJsonArray empty_batch []]).
Proof.
  split; [by left |].
  exact (X10_empty_batch sample_JSON_parse empty_batch [] eq_refl).
Defined.

(** X11 at a batch whose resource would read otherwise for the second item. *)
Lemma X11_selectors_read_for_first_item_witness :
  resource_changes_later "resource" 1 ≠ getNodeParameter batch_second_fails "resource" 1
  ∧ execute sample_JSON_parse
      (with_parameters resource_changes_later
         (getNodeParameter_options batch_second_fails) batch_second_fails) []
    = execute sample_JSON_parse batch_second_fails [].
Proof.
  split; [discriminate |].
  apply X11_selectors_read_for_first_item.
  intros name i Hread. unfold resource_changes_later.
  case_decide as Hlater; [| reflexivity].
  destruct Hlater as [-> Hi]. by destruct Hread as [[Hname _] | Hzero].
Defined.

(** X12 at the operation [patch]. *)
Lemma X12_unknown_operation_witness :
  ∃ spec, resolve sample_JSON_parse get_document "projects" "patch" 0 = inr spec
    ∧ spec_method spec = GET ∧ spec_endpoint spec = "/projects".
Proof.
  destruct (X12_unknown_operation sample_JSON_parse get_document "projects" "patch" 0)
    as (spec & Hr & Hm & He & _).
  - compute_done.
  - compute_done.
  - by exists spec.
Defined.

(** X13 at a list of work items. *)
Lemma X13_query_parameters_witness :
  ∃ spec, resolve sample_JSON_parse list_workItems "workItems" "list" 0 = inr spec
    ∧ is_Some (spec_qs spec !! "query") ∧ is_Some (spec_qs spec !! "limit").
Proof.
  eexists. split; [reflexivity |].
  destruct (X13_query_parameters sample_JSON_parse list_workItems "workItems" "list" 0
              _ eq_refl) as (_ & Hlimit & _ & Hquery).
  split; [by apply Hquery | by apply Hlimit].
Defined.

(** X14 at a negative limit. *)
Lemma X14_pagination_unchecked_witness :
  ∃ spec,
    resolve sample_JSON_parse list_workItems_unchecked "workItems" "list" 0 = inr spec
    ∧ spec_qs spec !! "limit" = Some (JNum (-5)).
Proof.
  eexists. split; [reflexivity |].
  exact (proj1 (X14_pagination_unchecked sample_JSON_parse list_workItems_unchecked
                  "workItems" 0 _ (JNum (-5)) eq_refl eq_refl) eq_refl).
Defined.

(** X15 at a work item read with another document identifier. *)
Lemma X15_reads_only_declared_witness :
  other_document "documentId" 0 ≠ getNodeParameter get_workItem "documentId" 0
  ∧ resolve sample_JSON_parse
      (with_parameters other_document (getNodeParameter_options get_workItem)
         get_workItem) "workItems" "get" 0
    = resolve sample_JSON_parse get_workItem "workItems" "get" 0.
Proof.
  split; [discriminate |].
  apply X15_reads_only_declared; [| done].
  intros p Hp. cbn in Hp. rewrite !elem_of_cons, elem_of_nil in Hp.
  repeat (destruct Hp as [-> | Hp]); try done; by intros Hshown.
Defined.

(** X16 at the identifier of a work item. *)
Lemma X16_declared_identifier_is_read_witness :
  other_document "workItemId" 0 = getNodeParameter get_workItem "workItemId" 0.
Proof.
  refine (X16_declared_identifier_is_read sample_JSON_parse get_workItem
            other_document (getNodeParameter_options get_workItem)
            "workItems" "get" 0
            (nth 0 Declared.workItemFields Declared.genericDataField)
            (documented_request get_workItem "workItems" "get" 0 ∅)
            _ _ _ eq_refl eq_refl eq_refl).
  - apply (list_elem_of_lookup_2 _ 0). reflexivity.
  - discriminate.
  - compute_done.
Defined.

(** X17 at [get] on the document whose identifier is one lead surrogate, and
    at a resource that is not offered. *)
Lemma X17_selector_values_resolve_witness :
  resolve_units sample_JSON_parse get_document (fun _ => [55296%N]) "documents" "get" 0
  = inl URI_malformed
  ∧ (∃ error, resolve_units sample_JSON_parse get_document (fun _ => [55296%N])
                "Documents" "get" 0 = inl error).
Proof.
  split.
  - destruct (X17_selector_values_resolve sample_JSON_parse get_document
                (fun _ => [55296%N]) "documents" "get" 0) as [Hoffered _].
    destruct Hoffered as [[[spec Hspec] | [[[Hop | Hop] _] | Hform]] _];
      [compute_done | discriminate Hspec | discriminate Hop | discriminate Hop |].
    exact (proj2 (proj2 (proj2 Hform))).
  - destruct (X17_selector_values_resolve sample_JSON_parse get_document
                (fun _ => [55296%N]) "Documents" "get" 0) as (_ & Hother & _).
    apply Hother. compute_done.
Defined.

(** X18 at a list of work items whose options hold the declared defaults. *)
Lemma X18_declared_defaults_witness :
  getNodeParameter_options list_workItems_defaults 0
  = {[ "fields" := JStr EmptyString; "limit" := JNum 50; "skip" := JNum 0 ]}
  ∧ resolve sample_JSON_parse list_workItems_defaults "workItems" "list" 0
    = resolve sample_JSON_parse
        (with_parameters (getNodeParameter list_workItems_defaults) (fun _ => ∅)
           list_workItems_defaults) "workItems" "list" 0.
Proof.
  split; [reflexivity |].
  exact (X18_declared_defaults sample_JSON_parse list_workItems_defaults
           "workItems" "list" 0 eq_refl).
Defined.

(** X19 at the sample credential of token authentication. *)
Lemma X19_declared_methods_supported_witness :
  ∃ header, authHeader (sample_credentials "pat") = inr header.
Proof.
  destruct (X19_declared_methods_supported list_workItems (sample_credentials "pat")
              (nth 1 Declared.PolarionApi_properties Declared.genericDataField))
    as [Hiff _].
  - apply (list_elem_of_lookup_2 _ 1). reflexivity.
  - reflexivity.
  - apply Hiff. compute_done.
Defined.

(** X20 at two credentials of basic authentication that differ in the token. *)
Lemma X20_reads_only_listed_fields_witness :
  pat (sample_credentials "basic") ≠ pat other_token
  ∧ authHeader (sample_credentials "basic") = authHeader other_token.
Proof.
  split; [discriminate |].
  refine (proj1 (X20_reads_only_listed_fields list_workItems
                   (sample_credentials "basic") other_token GET "/workItems" ∅ ∅
                   None [] _)).
  intros p Hp.
  change (Declared.credential_properties Declared.PolarionApi)
    with Declared.PolarionApi_properties in Hp.
  unfold Declared.PolarionApi_properties in Hp.
  rewrite !elem_of_cons, elem_of_nil in Hp.
  repeat (destruct Hp as [-> | Hp]); try done; by intros Hshown.
Defined.

(** X21 at one list of work items. *)
Lemma X21_requests_of_execute_witness :
  ∃ request header,
    (execute sample_JSON_parse list_workItems []).1 = [request]
    ∧ url request = "/workItems"
    ∧ headers request !! "Authorization" = Some header.
Proof.
  assert (∃ request, (execute sample_JSON_parse list_workItems []).1 = [request])
    as [request Hlog] by (eexists; reflexivity).
  destruct (X21_requests_of_execute sample_JSON_parse list_workItems request)
    as (i & spec & c & h & Hi & Hr & _ & _ & _ & Hurl & Hheader).
  { rewrite Hlog. by apply list_elem_of_singleton. }
  exists request, h. split; [done |]. split; [| done].
  cbn in Hi. assert (i = 0) as -> by lia.
  rewrite Hurl. cbn in Hr. by injection Hr as <-.
Defined.

(** X22 at the payload that is the one character U+1F600: the body holds
    the lead surrogate under [0] and the trail surrogate under [1]. *)
Lemma X22_string_payload_code_units_witness :
  ∃ spec,
    resolve sample_JSON_parse create_string_payload "workItems" "create" 0 = inr spec
    ∧ spec_body spec !! "0" = Some (JStr (string_of_bytes [237; 160; 189]%N))
    ∧ spec_body spec !! "1" = Some (JStr (string_of_bytes [237; 184; 128]%N))
    ∧ spec_body spec !! "2" = None.
Proof.
  assert (∃ spec, resolve sample_JSON_parse create_string_payload "workItems"
                    "create" 0 = inr spec) as [spec Hr] by (eexists; reflexivity).
  assert (Forall (fun u => (u < 65536)%N) [55357; 56832]%N) as Hunits
    by (repeat constructor).
  destruct (X22_string_payload_code_units sample_JSON_parse create_string_payload
              [55357; 56832]%N (string_of_bytes [240; 159; 152; 128]%N)
              "workItems" "create" 0 spec (or_introl eq_refl) Hunits eq_refl eq_refl Hr)
    as [Hlookup _].
  exists spec. split; [exact Hr |].
  split; [exact (Hlookup 0) |]. split; [exact (Hlookup 1) | exact (Hlookup 2)].
Defined.
